(** * Spending analyzer: a shallow embedding of [app.py] and its properties

    The program is a Streamlit script over one SQLite file.  It ingests CSV
    uploads into a [transactions] table, keeps a [removed_merchants] table,
    and on every run recomputes a handful of pandas aggregates.

    Conventions of the embedding.
    - A Python [str] is a [string]; [str.lower] is embedded on ASCII text,
      where it maps [A]..[Z] to [a]..[z] and fixes every other character.
    - A cell of an uploaded frame is a [value]: a missing value, a text or a
      number.
    - The [REAL] column [amount] is embedded with exact rationals ([Qc]);
      the rounding of binary64 additions is not part of the model.
    - Code that can raise returns a [result]. *)

From Stdlib Require Import String Ascii QArith Qcanon.
From stdpp Require Import base decidable option list numbers strings gmap sorting pretty.

Local Open Scope string_scope.
Local Open Scope list_scope.

(** ** Python strings *)

Module Str.

(** [c.lower()] for one ASCII character. *)
Definition lower_char (a : ascii) : ascii :=
  let n := N_of_ascii a in
  if ((65 <=? n) && (n <=? 90))%N then ascii_of_N (n + 32) else a.

(** [s.lower()] *)
Fixpoint lower (s : string) : string :=
  match s with
  | EmptyString => EmptyString
  | String a rest => String (lower_char a) (lower rest)
  end.

(** [s.startswith(p)] *)
Fixpoint startswith (p s : string) : bool :=
  match p, s with
  | EmptyString, _ => true
  | String _ _, EmptyString => false
  | String a p', String b s' => if decide (a = b) then startswith p' s' else false
  end.

(** [sub in s]: [sub] occurs in [s] at some position. *)
Fixpoint contains (sub s : string) : bool :=
  startswith sub s ||
  match s with
  | EmptyString => false
  | String _ rest => contains sub rest
  end.

(** What [sub in s] means: [s] splits around an occurrence of [sub]. *)
Definition occurs_in (sub s : string) : Prop :=
  ∃ pre post : string, s = pre +:+ sub +:+ post.

(** Case-insensitive occurrence, as [sub.lower() in s.lower()]. *)
Definition occurs_in_ci (sub s : string) : Prop :=
  occurs_in (lower sub) (lower s).

End Str.

(** ** Auto-categorization rules *)

(** The dict literal [CATEGORY_RULES]; a Python dict iterates in insertion
    order, so the literal is kept as the list of its items. *)
Definition CATEGORY_RULES : list (string * string) :=
  [ ("Starbucks", "Coffee");
    ("McDonald", "Fast Food");
    ("Uber", "Transportation");
    ("Lyft", "Transportation");
    ("Amazon", "Shopping");
    ("Target", "Shopping");
    ("Costco", "Groceries");
    ("Walmart", "Shopping") ].

(** The [for keyword, category in ...items()] loop of [categorize], with its
    early [return category] and the final [return 'Other']. *)
Fixpoint categorize_items (items : list (string * string)) (description : string)
  : string :=
  match items with
  | [] => "Other"
  | (keyword, category) :: rest =>
      if Str.contains (Str.lower keyword) (Str.lower description)
      then category
      else categorize_items rest description
  end.

Definition categorize (description : string) : string :=
  categorize_items CATEGORY_RULES description.

(** ** Regular expressions, as far as the merchant search needs them

    [Series.str.contains(pat, case=False)] is called with its default
    [regex=True]: the search text is compiled with [re.compile(pat,
    re.IGNORECASE)] and each description is tested with [search].  The
    patterns written with literal characters and [.] are embedded here, and
    so is the error of a pattern that opens a group and never closes it;
    what [re] does with any other pattern is a parameter of the development
    (see [re_compile_rest] below). *)

Module RE.

Inductive item : Type :=
| Lit (a : ascii)   (* a character that stands for itself *)
| Dot.              (* [.]: any character except a newline *)

(** The characters with a special meaning in a pattern, [.] apart. *)
Definition special (a : ascii) : bool :=
  bool_decide (a ∈ list_ascii_of_string "\^$*+?{}[]|()").

Fixpoint parse (pat : string) : option (list item) :=
  match pat with
  | EmptyString => Some []
  | String a rest =>
      if decide (a = "."%char) then cons Dot <$> parse rest
      else if special a then None
      else cons (Lit a) <$> parse rest
  end.

(** A pattern of literal characters and [.] with one [(] in it: the [(]
    opens a group, no [)] closes it, and [re.compile] raises [re.error]
    ("missing ), unterminated subpattern"). *)
Fixpoint unterminated_group (pat : string) : bool :=
  match pat with
  | EmptyString => false
  | String a rest =>
      if decide (a = "("%char) then bool_decide (is_Some (parse rest))
      else if decide (a = "."%char) then unterminated_group rest
      else if special a then false
      else unterminated_group rest
  end.

(** The patterns in which every character stands for itself. *)
Definition literal_char (a : ascii) : bool :=
  negb (bool_decide (a = "."%char)) && negb (special a).

Fixpoint plain (pat : string) : bool :=
  match pat with
  | EmptyString => true
  | String a rest => literal_char a && plain rest
  end.

(** One pattern item against one character, ignoring case. *)
Definition item_matches (it : item) (c : ascii) : bool :=
  match it with
  | Lit a => bool_decide (Str.lower_char a = Str.lower_char c)
  | Dot => negb (bool_decide (c = "010"%char))
  end.

(** The pattern matches at the start of [s]. *)
Fixpoint match_here (p : list item) (s : string) : bool :=
  match p, s with
  | [], _ => true
  | _ :: _, EmptyString => false
  | it :: p', String c s' => item_matches it c && match_here p' s'
  end.

(** [pattern.search(s) is not None] *)
Fixpoint search (p : list item) (s : string) : bool :=
  match_here p s ||
  match s with
  | EmptyString => false
  | String _ rest => search p rest
  end.

End RE.

(** ** Values, exceptions, dates *)

(** A cell of a pandas object column or of a SQLite row. *)
Inductive value : Type :=
| NaN                  (* a missing value: NaN, None, NULL *)
| Text (s : string)
| Number (x : Qc).

Global Instance value_eq_dec : EqDecision value.
Proof. solve_decision. Defined.

Inductive exn : Type :=
| AttributeError   (* [float] has no attribute [lower] *)
| ReError.         (* [re.error]: the search text is not a valid pattern *)

Inductive result (A : Type) : Type :=
| Ok (a : A)
| Raise (e : exn).
Global Arguments Ok {A} a.
Global Arguments Raise {A} e.

Global Instance result_ret : MRet result := λ A a, Ok a.
Global Instance result_bind : MBind result := λ A B f m,
  match m with Ok a => f a | Raise e => Raise e end.
Global Instance result_fmap : FMap result := λ A B f m,
  match m with Ok a => Ok (f a) | Raise e => Raise e end.

(** A [Timestamp], by its calendar day: the script writes dates with
    [strftime('%Y-%m-%d')] and groups them by month. *)
Record datetime : Type := { year : nat; month : nat; day : nat }.

Global Instance datetime_eq_dec : EqDecision datetime.
Proof. solve_decision. Defined.

(** [%02d] and [%04d] *)
Definition pad2 (n : nat) : string :=
  if decide (n < 10) then "0" +:+ pretty n else pretty n.
Definition pad4 (n : nat) : string :=
  if decide (n < 10) then "000" +:+ pretty n
  else if decide (n < 100) then "00" +:+ pretty n
  else if decide (n < 1000) then "0" +:+ pretty n
  else pretty n.

(** [.dt.strftime('%Y-%m-%d')]; [NaT] formats to a missing value. *)
Definition strftime (d : option datetime) : value :=
  match d with
  | Some d => Text (pad4 (year d) +:+ "-" +:+ pad2 (month d) +:+ "-" +:+ pad2 (day d))
  | None => NaN
  end.

(** A calendar month, [.dt.to_period('M')]. *)
Definition period : Type := nat * nat.

Definition to_period_M (d : option datetime) : option period :=
  (λ d, (year d, month d)) <$> d.

(** An instance of [pd.to_datetime(..., errors='coerce')] on the texts of
    the shape [YYYY-MM-DD], the shape [strftime] writes, taken cell by cell;
    it is what the examples run with. *)
Definition digit (a : ascii) : option nat :=
  let n := nat_of_ascii a in
  if decide (48 ≤ n ∧ n ≤ 57)%nat then Some (n - 48) else None.

Definition leap_year (y : nat) : bool :=
  bool_decide (y `mod` 4 = 0 ∧ (y `mod` 100 ≠ 0 ∨ y `mod` 400 = 0)).

Definition days_in_month (y m : nat) : nat :=
  match m with
  | 2 => if leap_year y then 29 else 28
  | 4 | 6 | 9 | 11 => 30
  | _ => 31
  end.

Definition iso_date (v : value) : option datetime :=
  match v with
  | Text (String y1 (String y2 (String y3 (String y4 (String "-"
      (String m1 (String m2 (String "-" (String d1 (String d2 "")))))))))) =>
      a ← digit y1; b ← digit y2; c ← digit y3; d ← digit y4;
      e ← digit m1; f ← digit m2; g ← digit d1; h ← digit d2;
      let y := 1000 * a + 100 * b + 10 * c + d in
      let m := 10 * e + f in
      let dd := 10 * g + h in
      if decide (1 ≤ m ∧ m ≤ 12 ∧ 1 ≤ dd ∧ dd ≤ days_in_month y m)%nat
      then Some {| year := y; month := m; day := dd |}
      else None
  | _ => None
  end.

Definition to_datetime_iso (column : list value) : list (option datetime) :=
  iso_date <$> column.

(** The cell of label [i] of a series; a label the series lacks gives a
    missing value, as when pandas aligns a series on an index. *)
Definition at_label {A : Type} (series : list (option A)) (i : nat) : option A :=
  mjoin (series !! i).

(** ** Frames and the store *)

(** The frame [pd.read_csv] returns for an upload: its column labels and its
    rows, each a map from label to cell.  A blank CSV cell is [NaN] here. *)
Record DataFrame : Type := {
  columns : list string;
  rows : list (gmap string value)
}.

(** A row of [df[expected_cols]]. *)
Record upload_row : Type := {
  Date : value;
  Description : value;
  Category : value;
  Amount : value
}.

(** A row of the table [transactions]. *)
Record sql_row : Type := {
  sql_id : Z;
  sql_date : value;
  sql_description : value;
  sql_category : value;
  sql_amount : value
}.

(** The database file: the table [transactions], in rowid order, and the
    table [removed_merchants], whose one column is its primary key. *)
Record db : Type := {
  transactions : list sql_row;
  removed_merchants : gset string
}.

(** A row of the frame [data], for the column types the aggregations are
    written for: [date] a datetime or [NaT], [description] a text,
    [category] a text or missing, [amount] a float or [NaN]. *)
Record Transaction : Type := {
  id : Z;
  date : option datetime;
  description : string;
  category : option string;
  amount : option Qc
}.

Global Instance Transaction_eq_dec : EqDecision Transaction.
Proof. solve_decision. Defined.

(** ** Series and group-by *)

(** [Series.sum()]: missing values are skipped, the empty sum is 0.

    The amounts are floats in the program and exact numbers here.  In the
    theorems below a sum is always a sum that the program takes, of the
    same cells: none relies on regrouping or reordering the cells of a sum,
    which floating-point addition does not allow.  The examples use amounts
    that a float holds exactly. *)
Definition series_sum (xs : list (option Qc)) : Qc :=
  foldr (λ x acc, default 0 x + acc)%Qc 0%Qc xs.

(** [Series.sum()] and [Series.mean()] of a series without missing values;
    the mean of the empty series is [NaN] ([None]). *)
Definition Qc_sum (xs : list Qc) : Qc := foldr Qcplus 0%Qc xs.

Definition series_mean (xs : list Qc) : option Qc :=
  match xs with
  | [] => None
  | _ :: _ => Some (Qc_sum xs / Qc_of_Z (Z.of_nat (length xs)))%Qc
  end.

(** [frame.groupby(key)['amount'].sum()]: one entry per distinct key, in
    ascending key order; rows whose key is missing are in no group. *)
Definition groupby_sum {K : Type} `{EqDecision K}
    (le : relation K) `{!RelDecision le}
    (key : Transaction → option K) (frame : list Transaction) : list (K * Qc) :=
  (λ k, (k, series_sum (amount <$> filter (λ t, key t = Some k) frame)))
    <$> merge_sort le (remove_dups (omap key frame)).

(** The row [t] has a key and it is one of [ks]. *)
Definition key_in {K : Type} (key : Transaction → option K) (ks : list K)
    (t : Transaction) : Prop :=
  key t ∈ (Some <$> ks).

Global Instance key_in_dec {K : Type} `{EqDecision K}
    (key : Transaction → option K) (ks : list K) (t : Transaction) :
  Decision (key_in key ks t).
Proof. unfold key_in. apply _. Defined.

Definition period_le (p q : period) : Prop :=
  (p.1 < q.1 ∨ (p.1 = q.1 ∧ p.2 ≤ q.2))%nat.

Global Instance period_le_dec : RelDecision period_le.
Proof. intros p q. unfold period_le. apply _. Defined.

(** The order [sort_values(ascending=False)] sorts by.  Entries with equal
    sums stay in group order, as a stable sort leaves them; pandas promises
    no order among them and no statement below depends on one. *)
Definition sum_ge {K : Type} (a b : K * Qc) : Prop := (b.2 ≤ a.2)%Qc.

Global Instance sum_ge_dec {K : Type} : RelDecision (@sum_ge K).
Proof. intros a b. unfold sum_ge. apply _. Defined.

Definition sort_values_desc {K : Type} (s : list (K * Qc)) : list (K * Qc) :=
  merge_sort sum_ge s.

(** ** The exported file *)

(** A cell of the written file, by the type of its column; how each cell is
    rendered as characters is not described. *)
Inductive csv_cell : Type :=
| CsvInt (n : Z)
| CsvDate (d : option datetime)
| CsvText (s : option string)
| CsvFloat (x : option Qc)
| CsvPeriod (p : option period).

Record csv_file : Type := {
  header : list string;
  records : list (list csv_cell)
}.

(** The result of the merchant search block. *)
Record merchant_report : Type := {
  merchant_data : list Transaction;
  total_merchant : Qc;
  avg_merchant : option Qc   (* [None] is [NaN] *)
}.

(** ** A run of the script *)

(** What the user has entered when a run starts: the files in the
    uploader, the search text, and the buttons pressed.  A button the run
    does not reach is not looked at. *)
Record widgets : Type := {
  uploaded_files : list DataFrame;
  search_text : string;
  remove_pressed : bool;
  reinstate_pressed : bool;
  export_pressed : bool
}.

(** How a run ends: at the last line of the script, at
    [st.experimental_rerun()], which leaves the script at once, or at an
    exception. *)
Inductive ending : Type :=
| Finished
| Rerun
| Stopped (e : exn).

(** The store and the file [filtered_transactions.csv] a run leaves. *)
Record run : Type := {
  store_after : db;
  file_after : option csv_file;
  how : ending
}.

(** ** Sample inputs *)

Module Sample.

(** An instance of what [re] does outside the modelled patterns: it is
    only there to run the model, and rejects them all. *)
Definition re_rest : string → result (string → bool) := λ _, Raise ReError.

Definition empty_db : db := {| transactions := []; removed_merchants := ∅ |}.

Definition amount_4_50 : Qc := Q2Qc (9 # 2).
Definition amount_5_50 : Qc := Q2Qc (11 # 2).

(** The upload of one row [2024-03-05, Starbucks Downtown, (blank), 4.50]. *)
Definition upload : DataFrame :=
  {| columns := ["Date"; "Description"; "Category"; "Amount"];
     rows := [ {[ "Date" := Text "2024-03-05";
                  "Description" := Text "Starbucks Downtown";
                  "Category" := NaN;
                  "Amount" := Number amount_4_50 ]} ] |}.

Definition after_upload : db :=
  {| transactions :=
       [ {| sql_id := 1;
            sql_date := Text "2024-03-05";
            sql_description := Text "Starbucks Downtown";
            sql_category := Text "Coffee";
            sql_amount := Number amount_4_50 |} ];
     removed_merchants := ∅ |}.

(** The same row in a file that has no column Category. *)
Definition upload_without_category : DataFrame :=
  {| columns := ["Date"; "Description"; "Amount"];
     rows := [ {[ "Date" := Text "2024-03-05";
                  "Description" := Text "Starbucks Downtown";
                  "Amount" := Number amount_4_50 ]} ] |}.

Definition after_upload_without_category : db :=
  {| transactions :=
       [ {| sql_id := 1;
            sql_date := Text "2024-03-05";
            sql_description := Text "Starbucks Downtown";
            sql_category := Text "";
            sql_amount := Number amount_4_50 |} ];
     removed_merchants := ∅ |}.

(** A store with two Starbucks rows in different months and one Costco
    row. *)
Definition store : db :=
  {| transactions :=
       [ {| sql_id := 1; sql_date := Text "2024-03-05";
            sql_description := Text "Starbucks Downtown";
            sql_category := Text "Coffee"; sql_amount := Number amount_4_50 |};
         {| sql_id := 2; sql_date := Text "2024-04-07";
            sql_description := Text "STARBUCKS #12";
            sql_category := Text "Coffee"; sql_amount := Number amount_5_50 |};
         {| sql_id := 3; sql_date := Text "2024-04-09";
            sql_description := Text "Costco";
            sql_category := Text "Groceries";
            sql_amount := Number (Q2Qc 100) |} ];
     removed_merchants := ∅ |}.

Definition data : list Transaction :=
  [ {| id := 1; date := Some {| year := 2024; month := 3; day := 5 |};
       description := "Starbucks Downtown"; category := Some "Coffee";
       amount := Some amount_4_50 |};
    {| id := 2; date := Some {| year := 2024; month := 4; day := 7 |};
       description := "STARBUCKS #12"; category := Some "Coffee";
       amount := Some amount_5_50 |};
    {| id := 3; date := Some {| year := 2024; month := 4; day := 9 |};
       description := "Costco"; category := Some "Groceries";
       amount := Some (Q2Qc 100) |} ].

(** Two Starbucks rows, the second with a date that did not parse. *)
Definition data_with_undated : list Transaction :=
  [ {| id := 1; date := Some {| year := 2024; month := 3; day := 5 |};
       description := "Starbucks Downtown"; category := Some "Coffee";
       amount := Some amount_4_50 |};
    {| id := 2; date := None;
       description := "Starbucks Uptown"; category := Some "Coffee";
       amount := Some amount_5_50 |} ].

(** Two descriptions, of which only the first contains ["amazon.com"]. *)
Definition data_amazon : list Transaction :=
  [ {| id := 1; date := Some {| year := 2024; month := 3; day := 5 |};
       description := "AMAZON.COM*2K4"; category := Some "Shopping";
       amount := Some (Q2Qc 20) |};
    {| id := 2; date := Some {| year := 2024; month := 3; day := 9 |};
       description := "Amazon Company Store"; category := Some "Shopping";
       amount := Some (Q2Qc 30) |} ].

(** A file without a column Amount: the blank text is stored in the column
    [amount], which then holds no float. *)
Definition upload_without_amount : DataFrame :=
  {| columns := ["Date"; "Description"; "Category"];
     rows := [ {[ "Date" := Text "2024-03-05";
                  "Description" := Text "Starbucks Downtown";
                  "Category" := Text "Coffee" ]} ] |}.

Definition after_upload_without_amount : db :=
  {| transactions :=
       [ {| sql_id := 1;
            sql_date := Text "2024-03-05";
            sql_description := Text "Starbucks Downtown";
            sql_category := Text "Coffee";
            sql_amount := Text "" |} ];
     removed_merchants := ∅ |}.

(** A file with its header and no row. *)
Definition header_only : DataFrame :=
  {| columns := ["Date"; "Description"; "Category"; "Amount"]; rows := [] |}.


(** A file whose one row has a blank description. *)
Definition upload_blank_description : DataFrame :=
  {| columns := ["Date"; "Description"; "Category"; "Amount"];
     rows := [ {[ "Date" := Text "2024-03-06";
                  "Description" := NaN;
                  "Category" := Text "Coffee";
                  "Amount" := Number amount_5_50 ]} ] |}.

(** The store after [upload] has been ingested a second time. *)
Definition after_second_upload : db :=
  {| transactions :=
       [ {| sql_id := 1;
            sql_date := Text "2024-03-05";
            sql_description := Text "Starbucks Downtown";
            sql_category := Text "Coffee";
            sql_amount := Number amount_4_50 |};
         {| sql_id := 2;
            sql_date := Text "2024-03-05";
            sql_description := Text "Starbucks Downtown";
            sql_category := Text "Coffee";
            sql_amount := Number amount_4_50 |} ];
     removed_merchants := ∅ |}.

(** The frames read from [after_upload] and [after_second_upload]. *)
Definition starbucks_downtown : Transaction :=
  {| id := 1; date := Some {| year := 2024; month := 3; day := 5 |};
     description := "Starbucks Downtown"; category := Some "Coffee";
     amount := Some amount_4_50 |}.

Definition frame_after_upload : list Transaction := [starbucks_downtown].

Definition frame_after_second_upload : list Transaction :=
  [ starbucks_downtown;
    {| id := 2; date := Some {| year := 2024; month := 3; day := 5 |};
       description := "Starbucks Downtown"; category := Some "Coffee";
       amount := Some amount_4_50 |} ].

(** The upload is in the uploader, "Starbucks" is searched for, and its
    removal is asked for. *)
Definition remove_starbucks : widgets :=
  {| uploaded_files := [upload]; search_text := "Starbucks";
     remove_pressed := true; reinstate_pressed := false;
     export_pressed := false |}.

(** The upload is in the uploader and nothing else is asked for. *)
Definition upload_only : widgets :=
  {| uploaded_files := [upload]; search_text := "";
     remove_pressed := false; reinstate_pressed := false;
     export_pressed := false |}.

(** The export is asked for. *)
Definition export_only : widgets :=
  {| uploaded_files := []; search_text := "";
     remove_pressed := false; reinstate_pressed := false;
     export_pressed := true |}.

End Sample.

Section App.

(** [pd.to_datetime(column, errors='coerce')]: the series of the dates the
    cells of a column parse to, [NaT] where a cell does not parse. *)
Variable to_datetime : list value → list (option datetime).

(** [re.compile(pat, re.IGNORECASE)] for the patterns that [RE.parse] and
    [RE.unterminated_group] do not cover: it raises, or it returns a
    compiled pattern, given here by its [search] test. *)
Variable re_compile_rest : string → result (string → bool).

(** *** Ingestion *)

Definition expected_cols : list string :=
  ["Date"; "Description"; "Category"; "Amount"].

(** The columns [add_transactions] warns about. *)
Definition missing_cols (df : DataFrame) : list string :=
  filter (λ col, col ∉ columns df) expected_cols.

(** One turn of the loop: [if col not in df.columns: df[col] = '']. *)
Definition fill_blank (df : DataFrame) (col : string) : DataFrame :=
  if decide (col ∈ columns df) then df
  else {| columns := columns df ++ [col];
          rows := <[col := Text ""]> <$> rows df |}.

Definition cell (col : string) (r : gmap string value) : value :=
  default NaN (r !! col).

(** [df[expected_cols]] *)
Definition select_expected (df : DataFrame) : list upload_row :=
  (λ r, {| Date := cell "Date" r;
           Description := cell "Description" r;
           Category := cell "Category" r;
           Amount := cell "Amount" r |}) <$> rows df.

(** [df['Date'] = pd.to_datetime(df['Date'],
    errors='coerce').dt.strftime('%Y-%m-%d')] *)
Definition normalize_dates (rs : list upload_row) : list upload_row :=
  let dates := to_datetime (Date <$> rs) in
  imap (λ i r, {| Date := strftime (at_label dates i);
                  Description := Description r;
                  Category := Category r;
                  Amount := Amount r |}) rs.

(** [categorize] called by [apply] on one cell of the column Description:
    a cell that is not a [str] has no method [lower]. *)
Definition apply_categorize (v : value) : result string :=
  match v with
  | Text s => Ok (categorize s)
  | _ => Raise AttributeError
  end.

(** [fillna] on one cell. *)
Definition fillna (v fill : value) : value :=
  match v with
  | NaN => fill
  | _ => v
  end.

(** [df['Category'].fillna(df['Description'].apply(categorize))]: the
    labels are computed for every row before any cell is filled. *)
Definition fill_category (rs : list upload_row) : result (list upload_row) :=
  labels ← mapM apply_categorize (Description <$> rs);
  mret (zip_with (λ r label,
                    {| Date := Date r;
                       Description := Description r;
                       Category := fillna (Category r) (Text label);
                       Amount := Amount r |}) rs labels).

(** The rowid SQLite gives a new row: 1 in an empty table, else one more
    than the largest in use.  This is its rule while the largest in use is
    below [2 ^ 63 - 1], the last rowid; what it picks after that is not
    described. *)
Definition next_id (table : list sql_row) : Z :=
  match sql_id <$> table with
  | [] => 1
  | i :: ids => 1 + foldr Z.max i ids
  end.

(** One row written by [to_sql].  The cells are stored as they are: a text
    in the columns [date], [description] and [category], a number or a
    missing value in the column [amount].  What the column affinities of
    SQLite make of a text in the column [amount], or of a number in a text
    column, is not described: for such a cell the row holds what [to_sql]
    hands to SQLite. *)
Definition insert_row (table : list sql_row) (r : upload_row) : list sql_row :=
  table ++ [ {| sql_id := next_id table;
                sql_date := Date r;
                sql_description := Description r;
                sql_category := Category r;
                sql_amount := Amount r |} ].

(** [df.to_sql('transactions', conn, if_exists='append', index=False)] *)
Definition to_sql (rs : list upload_row) (table : list sql_row) : list sql_row :=
  foldl insert_row table rs.

Definition add_transactions (df : DataFrame) (st : db) : result db :=
  let df := foldl fill_blank df expected_cols in
  let rs := select_expected df in
  let rs := normalize_dates rs in
  rs ← fill_category rs;
  mret {| transactions := to_sql rs (transactions st);
          removed_merchants := removed_merchants st |}.

(** *** Reading the store *)

Definition as_str (v : value) : option string :=
  match v with Text s => Some s | _ => None end.

Definition as_opt_str (v : value) : option (option string) :=
  match v with
  | NaN => Some None
  | Text s => Some (Some s)
  | Number _ => None
  end.

Definition as_float (v : value) : option (option Qc) :=
  match v with
  | NaN => Some None
  | Number x => Some (Some x)
  | Text _ => None
  end.

(** One row of [SELECT * FROM transactions], with the date parsed for it,
    when its cells have the column types of [Transaction]. *)
Definition read_row (parsed : option datetime) (r : sql_row) : option Transaction :=
  d ← as_str (sql_description r);
  c ← as_opt_str (sql_category r);
  a ← as_float (sql_amount r);
  Some {| id := sql_id r;
          date := parsed;
          description := d;
          category := c;
          amount := a |}.

(** [pd.read_sql('SELECT * FROM transactions', conn, parse_dates=['date'])]:
    the frame has one row per row of the table, in the order of the table,
    whatever the cells hold; a row of the frame is given here by the row of
    the table and the date its cell [date] parses to. *)
Definition read_sql (st : db) : list (option datetime * sql_row) :=
  let dates := to_datetime (sql_date <$> transactions st) in
  imap (λ i r, (at_label dates i, r)) (transactions st).

(** [get_transactions()], with the column types of [Transaction]: the
    frame of [read_sql], row by row (lemma [get_transactions_read_sql]).
    The result is [None] when some cell of the
    table has not the type of its column in [Transaction]; the frame
    pandas builds then has other column types, which are left out. *)
Definition get_transactions (st : db) : option (list Transaction) :=
  let dates := to_datetime (sql_date <$> transactions st) in
  mapM (λ ir, read_row (at_label dates ir.1) ir.2) (imap pair (transactions st)).

(** [get_removed_merchants()]: the merchants of the table, each once.  The
    order of the list is that of the rows in the table, which is not
    described: the statements below are about the members of the list. *)
Definition get_removed_merchants (st : db) : list string :=
  elements (removed_merchants st).

(** [INSERT OR IGNORE INTO removed_merchants] *)
Definition remove_merchant (merchant : string) (st : db) : db :=
  {| transactions := transactions st;
     removed_merchants := {[merchant]} ∪ removed_merchants st |}.

(** [DELETE FROM removed_merchants] *)
Definition reinstate_merchants (st : db) : db :=
  {| transactions := transactions st;
     removed_merchants := ∅ |}.

(** *** The dashboard *)

(** [data[~data['description'].isin(removed_merchants)]] *)
Definition filtered_data (data : list Transaction) (removed : list string)
  : list Transaction :=
  filter (λ t, description t ∉ removed) data.

(** The column [filtered_data['Month']]. *)
Definition Month (t : Transaction) : option period :=
  to_period_M (date t).

Definition top_merchants (filtered : list Transaction) : list (string * Qc) :=
  take 5 (sort_values_desc
            (groupby_sum String.le (λ t, Some (description t)) filtered)).

Definition top_categories (filtered : list Transaction) : list (string * Qc) :=
  sort_values_desc (groupby_sum String.le category filtered).

Definition monthly_summary (filtered : list Transaction) : list (period * Qc) :=
  groupby_sum period_le Month filtered.

(** *** Merchant search *)

Definition re_compile_ignorecase (pat : string) : result (string → bool) :=
  match RE.parse pat with
  | Some p => Ok (RE.search p)
  | None =>
      if RE.unterminated_group pat then Raise ReError else re_compile_rest pat
  end.

(** [series.str.contains(pat, case=False)] on a column of texts. *)
Definition str_contains (pat : string) (series : list string) : result (list bool) :=
  m ← re_compile_ignorecase pat;
  mret (m <$> series).

(** [frame[mask]] *)
Definition boolean_index (frame : list Transaction) (mask : list bool)
  : list Transaction :=
  (filter (λ p, p.2 = true) (zip frame mask)).*1.

(** The body of [if search:]. *)
Definition merchant_search (data : list Transaction) (search : string)
  : result merchant_report :=
  mask ← str_contains search (description <$> data);
  let merchant_data := boolean_index data mask in
  mret {| merchant_data := merchant_data;
          total_merchant := series_sum (amount <$> merchant_data);
          avg_merchant :=
            series_mean (groupby_sum period_le Month merchant_data).*2 |}.

(** [if search:] the empty text is falsy and runs no search. *)
Definition search_block (data : list Transaction) (search : string)
  : option (result merchant_report) :=
  if decide (search = "") then None else Some (merchant_search data search).

(** *** Export *)

(** [filtered_data.to_csv(..., index=False)]: the frame has the columns
    of the table and the column [Month] added after filtering. *)
Definition to_csv (filtered : list Transaction) : csv_file :=
  {| header := ["id"; "date"; "description"; "category"; "amount"; "Month"];
     records :=
       (λ t, [CsvInt (id t); CsvDate (date t); CsvText (Some (description t));
              CsvText (category t); CsvFloat (amount t); CsvPeriod (Month t)])
         <$> filtered |}.

(** [if st.button("Export filtered transactions as CSV"): ...], on the
    file [filtered_transactions.csv]. *)
Definition export_block (clicked : bool) (filtered : list Transaction)
    (file : option csv_file) : option csv_file :=
  if clicked then Some (to_csv filtered) else file.

(** *** One run of the script *)

(** The frame [filtered_data] the script builds from the store. *)
Definition filtered_view (st : db) : option (list Transaction) :=
  data ← get_transactions st;
  Some (filtered_data data (get_removed_merchants st)).

(** The search block of the script: it indexes [data], the frame read
    from the store, not [filtered_data]. *)
Definition search_view (st : db) (search : string)
  : option (option (result merchant_report)) :=
  data ← get_transactions st;
  Some (search_block data search).

(** *** The upload loop *)

(** [for file in uploaded_files: add_transactions(pd.read_csv(file))], on
    the frames read from the files: the store after the loop and the
    exception that ended it, if one did.  Each file is written when its turn
    completes; an exception leaves the files written before it in the
    table. *)
Fixpoint upload_files (files : list DataFrame) (st : db) : db * option exn :=
  match files with
  | [] => (st, None)
  | df :: rest =>
      match add_transactions df st with
      | Ok st' => upload_files rest st'
      | Raise e => (st, Some e)
      end
  end.

(** *** The script *)

(** The blocks "Removed Merchants" and "Export Filtered Data", with the
    list [removed_merchants] and the frame [filtered_data] the script has
    built before. *)
Definition removed_and_export_blocks (w : widgets) (st : db)
    (removed : list string) (filtered : list Transaction)
    (file : option csv_file) : run :=
  if bool_decide (removed ≠ []) && reinstate_pressed w then
    {| store_after := reinstate_merchants st; file_after := file; how := Rerun |}
  else
    {| store_after := st;
       file_after := export_block (export_pressed w) filtered file;
       how := Finished |}.

(** One run of the script, from the upload loop to its last line, on the
    store and the exported file.  The calls that only draw ([st.dataframe],
    [px.pie], [px.line], ...) are taken to return.  The result is [None]
    when the frame read from the store has not the column types of
    [Transaction]. *)
Definition script (w : widgets) (st : db) (file : option csv_file) : option run :=
  match upload_files (uploaded_files w) st with
  | (st, Some e) =>
      Some {| store_after := st; file_after := file; how := Stopped e |}
  | (st, None) =>
      data ← get_transactions st;
      let removed := get_removed_merchants st in
      let filtered := filtered_data data removed in
      Some match search_block data (search_text w) with
           | Some (Raise e) =>
               {| store_after := st; file_after := file; how := Stopped e |}
           | Some (Ok _) =>
               if remove_pressed w then
                 {| store_after := remove_merchant (search_text w) st;
                    file_after := file; how := Rerun |}
               else removed_and_export_blocks w st removed filtered file
           | None => removed_and_export_blocks w st removed filtered file
           end
  end.

(** *** Vocabulary of the statements *)

(** The cell of column [col] that ingestion works on for the row [r] of
    the upload [df]: the cell of the file, or the blank text the loop
    writes when the file has no such column. *)
Definition source_cell (col : string) (df : DataFrame) (r : gmap string value)
  : value :=
  if decide (col ∈ columns df) then cell col r else Text "".

(** The table row [row] is what ingestion writes for the row [r], of label
    [i], of the upload [df]. *)
Definition ingested (df : DataFrame) (i : nat) (r : gmap string value)
    (row : sql_row) : Prop :=
  ∃ s : string,
    source_cell "Description" df r = Text s ∧
    sql_description row = Text s ∧
    sql_date row
    = strftime (at_label (to_datetime (source_cell "Date" df <$> rows df)) i) ∧
    sql_category row = fillna (source_cell "Category" df r) (Text (categorize s)) ∧
    sql_amount row = source_cell "Amount" df r.

(** [to_sql] writes the cells of a frame row as they are. *)
Definition written (r : upload_row) (row : sql_row) : Prop :=
  sql_date row = Date r ∧ sql_description row = Description r ∧
  sql_category row = Category r ∧ sql_amount row = Amount r.

(** A date that [pd.to_datetime] returns: the cell of some label of the
    series it returns for some column, or [NaT]. *)
Definition returned_date (d : option datetime) : Prop :=
  ∃ (column : list value) (i : nat), at_label (to_datetime column) i = d.

(** The date cells of the table are texts that [strftime] has written from
    dates that [pd.to_datetime] returned, as the cells that ingestion
    writes are. *)
Definition dates_written (st : db) : Prop :=
  ∃ ds : list (option datetime),
    Forall returned_date ds ∧ sql_date <$> transactions st = strftime <$> ds.

(** The average per month as the specification words it: the sum of the
    amounts of the matched transactions, divided by the number of distinct
    months among them. *)
Definition claimed_avg_per_month (matched : list Transaction) : Qc :=
  (series_sum (amount <$> matched)
   / Qc_of_Z (Z.of_nat (length (remove_dups (omap Month matched)))))%Qc.

(** The character [c] is told apart bit by bit, for a match on it that can
    only have succeeded on one character. *)
Ltac destruct_char c :=
  let b0 := fresh "b" in let b1 := fresh "b" in let b2 := fresh "b" in
  let b3 := fresh "b" in let b4 := fresh "b" in let b5 := fresh "b" in
  let b6 := fresh "b" in let b7 := fresh "b" in
  destruct c as [b0 b1 b2 b3 b4 b5 b6 b7];
  destruct b0; try discriminate; destruct b1; try discriminate;
  destruct b2; try discriminate; destruct b3; try discriminate;
  destruct b4; try discriminate; destruct b5; try discriminate;
  destruct b6; try discriminate; destruct b7; try discriminate.

(** * Properties *)

(** ** Properties of strings *)

Lemma startswith_spec (p s : string) :
  Str.startswith p s = true ↔ ∃ post : string, s = p +:+ post.
Proof.
  revert s. induction p as [|a p IH]; intros s; simpl.
  - split; [intros _; by exists s | done].
  - destruct s as [|b s].
    + split; [done | intros [post Hpost]; discriminate].
    + destruct (decide (a = b)) as [->|Hne].
      * rewrite IH. split; intros [post Hpost]; exists post.
        -- by rewrite Hpost.
        -- by injection Hpost.
      * split; [done | intros [post Hpost]; by injection Hpost].
Qed.

Lemma contains_spec (sub s : string) :
  Str.contains sub s = true ↔ Str.occurs_in sub s.
Proof.
  unfold Str.occurs_in. induction s as [|b s IH]; simpl.
  - rewrite orb_false_r, startswith_spec. split.
    + intros [post Hpost]. exists "", post. done.
    + intros (pre & post & Heq). destruct pre; simpl in Heq; [by exists post | discriminate].
  - rewrite orb_true_iff, startswith_spec, IH. split.
    + intros [[post Hpost] | (pre & post & Heq)].
      * exists "", post. done.
      * exists (String b pre), post. simpl. by rewrite Heq.
    + intros (pre & post & Heq). destruct pre as [|c pre]; simpl in Heq.
      * left. by exists post.
      * right. exists pre, post. by injection Heq.
Qed.

Lemma contains_false_spec (sub s : string) :
  Str.contains sub s = false ↔ ¬ Str.occurs_in sub s.
Proof. rewrite <- contains_spec. by destruct (Str.contains sub s). Qed.

(** ** Properties of [categorize] *)

Lemma categorize_items_first (items : list (string * string)) (description : string)
    (i : nat) (keyword category : string) :
  items !! i = Some (keyword, category) →
  Str.occurs_in_ci keyword description →
  (∀ j kw c, j < i → items !! j = Some (kw, c) → ¬ Str.occurs_in_ci kw description) →
  categorize_items items description = category.
Proof.
  revert i. induction items as [|[kw0 c0] rest IH]; intros i Hi Hocc Hfirst; [done|].
  simpl. destruct i as [|i]; simpl in Hi.
  - injection Hi as -> ->. apply contains_spec in Hocc. by rewrite Hocc.
  - assert (Str.contains (Str.lower kw0) (Str.lower description) = false) as ->.
    { apply contains_false_spec. apply (Hfirst 0 kw0 c0); [lia | done]. }
    apply (IH i); [done | done |].
    intros j kw c Hj Hlk. apply (Hfirst (S j) kw c); [lia | done].
Qed.

Lemma categorize_items_none (items : list (string * string)) (description : string) :
  (∀ kw c, (kw, c) ∈ items → ¬ Str.occurs_in_ci kw description) →
  categorize_items items description = "Other".
Proof.
  induction items as [|[kw0 c0] rest IH]; intros Hnone; [done|].
  simpl.
  assert (Str.contains (Str.lower kw0) (Str.lower description) = false) as ->.
  { apply contains_false_spec. apply (Hnone kw0 c0). left. }
  apply IH. intros kw c Hin. apply (Hnone kw c). by right.
Qed.

(** C1. A description in which some configured keyword occurs, case folded,
    gets the category of the first such rule in declaration order; a
    description in which no configured keyword occurs gets "Other". *)
Theorem categorize_first_match_or_other (description : string) :
  (∀ (i : nat) (keyword category : string),
      CATEGORY_RULES !! i = Some (keyword, category) →
      Str.occurs_in_ci keyword description →
      (∀ j kw c, j < i → CATEGORY_RULES !! j = Some (kw, c) →
                 ¬ Str.occurs_in_ci kw description) →
      categorize description = category)
  ∧ ((∀ kw c, (kw, c) ∈ CATEGORY_RULES → ¬ Str.occurs_in_ci kw description) →
     categorize description = "Other").
Proof.
  split.
  - intros i keyword category. apply categorize_items_first.
  - apply categorize_items_none.
Qed.

(** ** Properties of ingestion *)

Lemma mapM_result_Ok {A B : Type} (f : A → result B) (l : list A) (k : list B) :
  mapM f l = Ok k ↔ Forall2 (λ x y, f x = Ok y) l k.
Proof.
  revert k. induction l as [|x l IH]; intros k; simpl.
  - split; [intros [= <-]; constructor | by inversion 1].
  - unfold mbind, result_bind, mret, result_ret in *.
    destruct (f x) as [y|e] eqn:Hfx.
    + destruct (mapM f l) as [k'|e] eqn:Hl.
      * split.
        -- intros [= <-]. constructor; [done | by apply IH].
        -- inversion 1 as [|? y' ? k'' Hy Hk]; subst.
           apply IH in Hk. congruence.
      * split; [done|]. inversion 1 as [|? y' ? k'' Hy Hk]; subst.
        apply IH in Hk. discriminate.
    + split; [done|]. inversion 1; congruence.
Qed.

Lemma to_sql_appends (rs : list upload_row) (table : list sql_row) :
  ∃ new, to_sql rs table = table ++ new ∧ Forall2 written rs new.
Proof.
  unfold to_sql. revert table. induction rs as [|r rs IH]; intros table; simpl.
  - exists []. by rewrite app_nil_r.
  - destruct (IH (insert_row table r)) as (new & -> & Hnew).
    unfold insert_row. eexists (_ :: new). rewrite <- app_assoc. split; [done|].
    constructor; [by repeat split | done].
Qed.

Lemma fill_blank_columns (df : DataFrame) (col c : string) :
  c ∈ columns (fill_blank df col) ↔ c ∈ columns df ∨ c = col.
Proof.
  unfold fill_blank. case_decide as Hin; simpl.
  - split; [auto | intros [?| ->]; done].
  - rewrite elem_of_app, list_elem_of_singleton. done.
Qed.

Lemma fill_blank_rows (df : DataFrame) (col : string) :
  Forall2 (λ r r', ∀ c, cell c r' =
                        if decide (c = col ∧ c ∉ columns df) then Text "" else cell c r)
          (rows df) (rows (fill_blank df col)).
Proof.
  unfold fill_blank. case_decide as Hin; simpl.
  - apply Forall_Forall2_diag, Forall_forall. intros r _ c.
    case_decide as H; [destruct H as [-> ?]; done | done].
  - apply Forall2_fmap_r, Forall_Forall2_diag, Forall_forall. intros r _ c.
    unfold cell. case_decide as H.
    + destruct H as [-> _]. by rewrite lookup_insert_eq.
    + rewrite lookup_insert_ne; [done|]. intros <-. apply H. done.
Qed.

Lemma fill_blanks_spec (cols : list string) (df : DataFrame) :
  (∀ c, c ∈ columns (foldl fill_blank df cols) ↔ c ∈ columns df ∨ c ∈ cols) ∧
  Forall2 (λ r r', ∀ c, cell c r' =
                        if decide (c ∈ cols ∧ c ∉ columns df) then Text "" else cell c r)
          (rows df) (rows (foldl fill_blank df cols)).
Proof.
  clear to_datetime re_compile_rest.
  revert df. induction cols as [|col cols IH]; intros df.
  - split; [intros c; rewrite elem_of_nil; simpl; tauto|].
    apply Forall_Forall2_diag, Forall_forall. intros r _ c.
    destruct (decide _) as [[H _]|]; [by apply elem_of_nil in H | done].
  - change (foldl fill_blank df (col :: cols))
      with (foldl fill_blank (fill_blank df col) cols).
    destruct (IH (fill_blank df col)) as [Hcols Hrows]. split.
    + intros c. rewrite Hcols, fill_blank_columns, elem_of_cons. tauto.
    + eapply Forall2_trans; [|apply fill_blank_rows|apply Hrows].
      intros r r1 r2 H1 H2 c. simpl in H1, H2. rewrite H2, H1.
      destruct (decide (c ∈ cols ∧ c ∉ columns (fill_blank df col))) as [[? Hn]|Hn];
        destruct (decide (c = col ∧ c ∉ columns df)) as [[? ?]|?];
        destruct (decide (c ∈ col :: cols ∧ c ∉ columns df)) as [[? ?]|Hm];
        try done; exfalso;
        rewrite ?fill_blank_columns, ?elem_of_cons in *; tauto.
Qed.

Lemma source_cells (df : DataFrame) :
  Forall2 (λ r u, Date u = source_cell "Date" df r ∧
                  Description u = source_cell "Description" df r ∧
                  Category u = source_cell "Category" df r ∧
                  Amount u = source_cell "Amount" df r)
          (rows df) (select_expected (foldl fill_blank df expected_cols)).
Proof.
  destruct (fill_blanks_spec expected_cols df) as [_ Hrows].
  unfold select_expected. apply Forall2_fmap_r.
  eapply Forall2_impl; [apply Hrows|].
  intros r r' Hc. simpl. rewrite !Hc. unfold source_cell, expected_cols.
  repeat split;
    (destruct (decide (_ ∧ _)) as [[_ Hn]|Hn]; destruct (decide (_ ∈ columns df));
     try done; exfalso; apply Hn; split; [set_solver | done]).
Qed.

Lemma Forall2_fmap_eq {A B C : Type} (f : A → C) (g : B → C)
    (l : list A) (k : list B) :
  Forall2 (λ x y, g y = f x) l k → g <$> k = f <$> l.
Proof. induction 1 as [|x y l k Hxy _ IH]; csimpl; [done | by rewrite Hxy, IH]. Qed.

Lemma normalize_dates_lookup (rs : list upload_row) (i : nat) (r : upload_row) :
  rs !! i = Some r →
  normalize_dates rs !! i
  = Some {| Date := strftime (at_label (to_datetime (Date <$> rs)) i);
            Description := Description r;
            Category := Category r;
            Amount := Amount r |}.
Proof. intros Hr. unfold normalize_dates. by rewrite list_lookup_imap, Hr. Qed.

Lemma normalize_dates_Description (rs : list upload_row) :
  Description <$> normalize_dates rs = Description <$> rs.
Proof.
  apply list_eq. intros i. unfold normalize_dates.
  rewrite !list_lookup_fmap, list_lookup_imap. by destruct (rs !! i).
Qed.

Lemma fill_category_Ok (rs rs' : list upload_row) :
  fill_category rs = Ok rs' →
  length rs' = length rs ∧
  ∀ i r, rs !! i = Some r →
    ∃ s, Description r = Text s ∧
         rs' !! i = Some {| Date := Date r;
                            Description := Description r;
                            Category := fillna (Category r) (Text (categorize s));
                            Amount := Amount r |}.
Proof.
  unfold fill_category, mbind, result_bind, mret, result_ret.
  destruct (mapM apply_categorize (Description <$> rs)) as [labels|e] eqn:Hlabels;
    [|done].
  intros [= <-]. apply mapM_result_Ok, Forall2_fmap_l in Hlabels.
  pose proof (Forall2_length _ _ _ Hlabels) as Hlen. split.
  - rewrite length_zip_with. lia.
  - intros i r Hr.
    destruct (Forall2_lookup_l _ _ _ _ _ Hlabels Hr) as (label & Hlabel & Hcat).
    simpl in Hcat. unfold apply_categorize in Hcat.
    destruct (Description r) as [|s|x] eqn:Hdesc; try done. injection Hcat as <-.
    exists s. split; [done|]. rewrite lookup_zip_with, Hr. simpl.
    by rewrite Hlabel, Hdesc.
Qed.

Lemma add_transactions_spec (df : DataFrame) (st st' : db) :
  add_transactions df st = Ok st' →
  removed_merchants st' = removed_merchants st ∧
  ∃ new, transactions st' = transactions st ++ new ∧
         length new = length (rows df) ∧
         ∀ i r row, rows df !! i = Some r → new !! i = Some row →
                    ingested df i r row.
Proof.
  unfold add_transactions.
  set (us := select_expected (foldl fill_blank df expected_cols)).
  pose proof (source_cells df) as Hsrc. fold us in Hsrc.
  destruct (fill_category (normalize_dates us)) as [rs'|e] eqn:Hfill; [|done].
  unfold mbind, result_bind, mret, result_ret. intros [= <-]. simpl.
  split; [done|].
  destruct (to_sql_appends rs' (transactions st)) as (new & -> & Hnew).
  apply fill_category_Ok in Hfill as [Hlen Hfill].
  pose proof (Forall2_length _ _ _ Hsrc) as Hlen1.
  pose proof (Forall2_length _ _ _ Hnew) as Hlen2.
  assert (length (normalize_dates us) = length us) as Hlen3
    by (unfold normalize_dates; apply length_imap).
  assert (Date <$> us = source_cell "Date" df <$> rows df) as Hdates.
  { apply Forall2_fmap_eq. eapply Forall2_impl; [apply Hsrc|]. by intros r u (? & _). }
  exists new. split_and!; [done | lia |].
  intros i r row Hr Hrow.
  destruct (Forall2_lookup_l _ _ _ _ _ Hsrc Hr) as (u & Hu & HD & HDe & HC & HA).
  destruct (Hfill i _ (normalize_dates_lookup us i u Hu)) as (s & Hs & Hr').
  destruct (Forall2_lookup_lr _ _ _ _ _ _ Hnew Hr' Hrow) as (Hd & Hde & Hc & Ha).
  simpl in *. exists s.
  rewrite <- Hdates, <- HC, <- HA, <- HDe, Hde, Hs. done.
Qed.

Lemma mapM_result_total {A B : Type} (f : A → result B) (l : list A) :
  (∃ k, mapM f l = Ok k) ↔ Forall (λ x, ∃ y, f x = Ok y) l.
Proof.
  split.
  - intros [k Hk]. apply mapM_result_Ok in Hk.
    induction Hk; constructor; eauto.
  - induction 1 as [|x l [y Hy] _ [k Hk]].
    + by exists [].
    + exists (y :: k). apply mapM_result_Ok. constructor; [done|].
      by apply mapM_result_Ok.
Qed.

(** Ingestion completes exactly when every cell of the column Description
    is a text; otherwise [apply(categorize)] raises before anything is
    written. *)
Lemma add_transactions_Ok_iff (df : DataFrame) (st : db) :
  (∃ st', add_transactions df st = Ok st') ↔
  Forall (λ r, ∃ s, source_cell "Description" df r = Text s) (rows df).
Proof.
  unfold add_transactions, fill_category.
  set (us := select_expected (foldl fill_blank df expected_cols)).
  pose proof (source_cells df) as Hsrc. fold us in Hsrc.
  rewrite normalize_dates_Description.
  assert ((∃ k, mapM apply_categorize (Description <$> us) = Ok k)
          ↔ Forall (λ r, ∃ s, source_cell "Description" df r = Text s) (rows df))
    as <-.
  { rewrite mapM_result_total, Forall_fmap. clear -Hsrc.
    induction Hsrc as [|r u l k (_ & HDe & _) _ IH]; [done|].
    rewrite !Forall_cons, IH. simpl. rewrite HDe.
    unfold apply_categorize.
    destruct (source_cell "Description" df r);
      (split; intros [[? He] ?]; try discriminate He; split; eauto). }
  unfold mbind, result_bind, mret, result_ret.
  destruct (mapM apply_categorize _) as [labels|e]; split.
  - by exists labels.
  - by eexists.
  - by intros [? ?].
  - by intros [? ?].
Qed.

(** ** Properties of sums and of group-by *)

Local Open Scope Qc_scope.

Lemma filter_iff_in {A : Type} (P Q : A → Prop)
    `{!∀ x, Decision (P x), !∀ x, Decision (Q x)} (l : list A) :
  (∀ x, x ∈ l → P x ↔ Q x) → filter P l = filter Q l.
Proof.
  induction l as [|a l IH]; intros HPQ; [done|].
  rewrite !filter_cons, IH by (intros x Hx; apply HPQ; by right).
  destruct (decide (P a)) as [HP|HP]; destruct (decide (Q a)) as [HQ|HQ];
    try done; exfalso; apply (HPQ a) in HP || apply (HPQ a) in HQ; try done; left.
Qed.

Section groupby.
Context {K : Type} `{EqDecision K} (le : relation K) `{!RelDecision le}.
Context (key : Transaction → option K).

Lemma groupby_sum_keys (frame : list Transaction) :
  (groupby_sum le key frame).*1 ≡ₚ remove_dups (omap key frame).
Proof.
  unfold groupby_sum. rewrite <- list_fmap_compose.
  etrans; [|apply (merge_sort_Permutation le)].
  generalize (merge_sort le (remove_dups (omap key frame))). intros ks.
  induction ks as [|k ks IH]; csimpl; [done | by f_equiv].
Qed.

Lemma groupby_sum_NoDup (frame : list Transaction) :
  NoDup (groupby_sum le key frame).*1.
Proof. rewrite groupby_sum_keys. apply NoDup_remove_dups. Qed.

Lemma groupby_sum_length (frame : list Transaction) :
  length (groupby_sum le key frame) = length (remove_dups (omap key frame)).
Proof.
  rewrite <- (length_fmap fst). apply Permutation_length, groupby_sum_keys.
Qed.

Lemma groupby_sum_elem (frame : list Transaction) (k : K) (s : Qc) :
  (k, s) ∈ groupby_sum le key frame ↔
  (∃ t, t ∈ frame ∧ key t = Some k) ∧
  s = series_sum (amount <$> filter (λ t, key t = Some k) frame).
Proof.
  unfold groupby_sum. rewrite list_elem_of_fmap.
  setoid_rewrite merge_sort_Permutation.
  setoid_rewrite elem_of_remove_dups.
  setoid_rewrite list_elem_of_omap.
  split.
  - intros (k' & [= -> ->] & Hk). done.
  - intros [Hk ->]. by exists k.
Qed.

End groupby.

(** ** Properties of the sort *)

Global Instance sum_ge_total {K : Type} : Total (@sum_ge K).
Proof. intros a b. unfold sum_ge. destruct (Qc_le_total a.2 b.2); auto. Qed.

Global Instance sum_ge_trans {K : Type} : Transitive (@sum_ge K).
Proof. intros a b c Hab Hbc. unfold sum_ge in *. by etrans. Qed.

Lemma sort_values_desc_Permutation {K : Type} (s : list (K * Qc)) :
  sort_values_desc s ≡ₚ s.
Proof. apply merge_sort_Permutation. Qed.

Lemma sort_values_desc_sorted {K : Type} (s : list (K * Qc)) :
  StronglySorted sum_ge (sort_values_desc s).
Proof. apply StronglySorted_merge_sort; apply _. Qed.

Lemma sorted_take_drop {A : Type} (R : relation A) (l : list A) (n : nat) (x y : A) :
  StronglySorted R l → x ∈ take n l → y ∈ drop n l → R x y.
Proof.
  intros Hl Hx Hy. rewrite <- (take_drop n l) in Hl.
  by eapply StronglySorted_app_1_elem_of.
Qed.

(** ** Properties of the filter *)

Lemma filtered_data_elem (data : list Transaction) (removed : list string)
    (t : Transaction) :
  t ∈ filtered_data data removed ↔ t ∈ data ∧ description t ∉ removed.
Proof. unfold filtered_data. rewrite list_elem_of_filter. tauto. Qed.

Lemma get_transactions_remove_merchant (merchant : string) (st : db) :
  get_transactions (remove_merchant merchant st) = get_transactions st.
Proof. done. Qed.

Lemma get_transactions_reinstate_merchants (st : db) :
  get_transactions (reinstate_merchants st) = get_transactions st.
Proof. done. Qed.

Lemma get_removed_merchants_elem (st : db) (m : string) :
  m ∈ get_removed_merchants st ↔ m ∈ removed_merchants st.
Proof. unfold get_removed_merchants. apply elem_of_elements. Qed.

Lemma get_removed_merchants_reinstate (st : db) :
  get_removed_merchants (reinstate_merchants st) = [].
Proof. unfold get_removed_merchants. simpl. apply elements_empty. Qed.

Lemma filtered_data_nil (data : list Transaction) : filtered_data data [] = data.
Proof.
  unfold filtered_data. induction data as [|t data IH]; [done|].
  rewrite filter_cons_True by apply not_elem_of_nil. by rewrite IH.
Qed.

(** C3. The filtered frame keeps, in order, the transactions whose
    description is no member of the excluded set and drops the others;
    excluding one more merchant drops the rows whose description equals it
    and no other row; after [reinstate_merchants] the filtered frame is the
    whole frame again. *)
Theorem filtered_data_drops_exactly_excluded (data : list Transaction) (st : db) :
  (∀ t, t ∈ filtered_data data (get_removed_merchants st) ↔
        t ∈ data ∧ description t ∉ removed_merchants st)
  ∧ filtered_data data (get_removed_merchants st)
    = filter (λ t, description t ∉ removed_merchants st) data
  ∧ (∀ merchant,
       filtered_data data (get_removed_merchants (remove_merchant merchant st))
       = filter (λ t, description t ≠ merchant)
                (filtered_data data (get_removed_merchants st)))
  ∧ filtered_data data (get_removed_merchants (reinstate_merchants st)) = data
  ∧ filtered_view (reinstate_merchants st) = get_transactions st.
Proof.
  split_and!.
  - intros t. by rewrite filtered_data_elem, get_removed_merchants_elem.
  - apply list_filter_iff. intros t. by rewrite get_removed_merchants_elem.
  - intros merchant. unfold filtered_data. rewrite list_filter_filter.
    apply list_filter_iff. intros t.
    rewrite !get_removed_merchants_elem. simpl.
    by rewrite not_elem_of_union, not_elem_of_singleton.
  - by rewrite get_removed_merchants_reinstate, filtered_data_nil.
  - unfold filtered_view.
    rewrite get_transactions_reinstate_merchants, get_removed_merchants_reinstate.
    destruct (get_transactions st) as [data'|]; simpl; [|done].
    by rewrite filtered_data_nil.
Qed.

(** ** Properties of the dashboard aggregates *)

Lemma is_Some_Month (t : Transaction) : is_Some (Month t) ↔ is_Some (date t).
Proof. unfold Month, to_period_M. by rewrite fmap_is_Some. Qed.

Lemma filter_False {A : Type} (P : A → Prop) `{!∀ x, Decision (P x)}
    (l : list A) :
  (∀ x, x ∈ l → ¬ P x) → filter P l = [].
Proof.
  induction l as [|a l IH]; intros HP; [done|].
  rewrite filter_cons_False by (apply HP; left).
  apply IH. intros x Hx. apply HP. by right.
Qed.

(** Two tests that no row passes together split the rows that pass one of
    them. *)
Lemma filter_disjoint_app {A : Type} (P Q : A → Prop)
    `{!∀ x, Decision (P x), !∀ x, Decision (Q x)} (l : list A) :
  (∀ x, P x → Q x → False) →
  filter P l ++ filter Q l ≡ₚ filter (λ x, P x ∨ Q x) l.
Proof.
  intros Hdisj. induction l as [|a l IH]; [done|].
  rewrite !filter_cons.
  destruct (decide (P a)) as [HP|HP]; destruct (decide (Q a)) as [HQ|HQ].
  - destruct (Hdisj a HP HQ).
  - rewrite decide_True by tauto. simpl. by f_equiv.
  - rewrite decide_True by tauto. rewrite <- Permutation_middle. by f_equiv.
  - rewrite decide_False by tauto. done.
Qed.

(** The groups of distinct keys share no row: put one after the other,
    they are the rows that have one of the keys, each once. *)
Lemma group_rows_Permutation {K : Type} `{EqDecision K}
    (key : Transaction → option K) (ks : list K) (frame : list Transaction) :
  NoDup ks →
  concat ((λ k, filter (λ t, key t = Some k) frame) <$> ks)
  ≡ₚ filter (key_in key ks) frame.
Proof.
  induction 1 as [|k ks Hk _ IH]; csimpl.
  - rewrite filter_False; [done|]. intros t _. apply not_elem_of_nil.
  - rewrite IH. rewrite filter_disjoint_app.
    + erewrite filter_iff_in; [done|]. intros t _. unfold key_in.
      rewrite fmap_cons, elem_of_cons. done.
    + intros t Ht Hin. unfold key_in in Hin. rewrite Ht in Hin.
      apply list_elem_of_fmap in Hin as (k' & [= <-] & Hin). done.
Qed.

Lemma groupby_rows_Permutation {K : Type} `{EqDecision K} (le : relation K)
    `{!RelDecision le} (key : Transaction → option K) (frame : list Transaction) :
  concat ((λ k, filter (λ t, key t = Some k) frame)
            <$> (groupby_sum le key frame).*1)
  ≡ₚ filter (λ t, is_Some (key t)) frame.
Proof.
  rewrite group_rows_Permutation by apply groupby_sum_NoDup.
  erewrite filter_iff_in; [done|]. intros t Ht. unfold key_in.
  rewrite list_elem_of_fmap. split.
  - intros (k & Hk & _). by rewrite Hk.
  - intros [k Hk]. exists k. split; [done|].
    rewrite groupby_sum_keys, elem_of_remove_dups, list_elem_of_omap.
    by exists t.
Qed.

(** C5 (as amended). The monthly trend has one bucket for each month that
    occurs among the filtered transactions, and the total of a bucket is the
    sum of the amounts of the filtered transactions of its month.  The
    buckets share no transaction and leave out none that has a date: put one
    after the other, their transactions are the filtered transactions that
    have a date, each once.  A transaction whose date is missing is in no
    bucket. *)
Theorem monthly_summary_buckets_dated_rows (data : list Transaction)
    (removed : list string) :
  let frame := filtered_data data removed in
  let bucket := λ p, filter (λ t, Month t = Some p) frame in
  NoDup (monthly_summary frame).*1
  ∧ (∀ p s, (p, s) ∈ monthly_summary frame ↔
       (∃ t, t ∈ frame ∧ Month t = Some p)
       ∧ s = series_sum (amount <$> bucket p))
  ∧ concat (bucket <$> (monthly_summary frame).*1)
    ≡ₚ filter (λ t, is_Some (date t)) frame
  ∧ (∀ t p, date t = None → t ∉ bucket p).
Proof.
  intros frame bucket. split_and!.
  - apply groupby_sum_NoDup.
  - intros p s. apply groupby_sum_elem.
  - unfold monthly_summary, bucket. rewrite groupby_rows_Permutation.
    erewrite filter_iff_in; [done|]. intros t _. apply is_Some_Month.
  - intros t p Hdate Hin. unfold bucket in Hin.
    apply list_elem_of_filter in Hin as [Hp _].
    unfold Month in Hp. by rewrite Hdate in Hp.
Qed.

Lemma omap_Some_key {A B : Type} (f : A → B) (l : list A) :
  omap (λ a, Some (f a)) l = f <$> l.
Proof. induction l as [|a l IH]; csimpl; [done | by rewrite IH]. Qed.

Lemma sorted_take {A : Type} (R : relation A) (l : list A) (n : nat) :
  StronglySorted R l → StronglySorted R (take n l).
Proof.
  intros Hl. rewrite <- (take_drop n l) in Hl.
  by eapply StronglySorted_app_1_l.
Qed.

(** C6. The top merchants are one row per description of the filtered
    frame, each with the sum of the amounts of its transactions, in
    descending order of the sum, cut to the first 5; a description that is
    left out has a sum no larger than the sums kept; no excluded merchant
    has a row, whatever its sum was. *)
Theorem top_merchants_spec (data : list Transaction) (removed : list string) :
  (∀ m s, (m, s) ∈ top_merchants (filtered_data data removed) →
     (∃ t, t ∈ filtered_data data removed ∧ description t = m) ∧
     s = series_sum (amount <$> filter (λ t, description t = m)
                                       (filtered_data data removed)))
  ∧ NoDup (top_merchants (filtered_data data removed)).*1
  ∧ StronglySorted sum_ge (top_merchants (filtered_data data removed))
  ∧ length (top_merchants (filtered_data data removed))
    = (5 `min` length (remove_dups (description <$> filtered_data data removed)))%nat
  ∧ (∀ t e, t ∈ filtered_data data removed →
       description t ∉ (top_merchants (filtered_data data removed)).*1 →
       e ∈ top_merchants (filtered_data data removed) →
       series_sum (amount <$> filter (λ t', description t' = description t)
                                     (filtered_data data removed)) ≤ e.2)
  ∧ (∀ m, m ∈ removed → m ∉ (top_merchants (filtered_data data removed)).*1)
  ∧ (∀ (st : db) (merchant : string) (filtered : list Transaction),
       filtered_view (remove_merchant merchant st) = Some filtered →
       merchant ∉ (top_merchants filtered).*1).
Proof.
  assert (∀ (frame : list Transaction) m s,
            (m, s) ∈ top_merchants frame →
            (∃ t, t ∈ frame ∧ description t = m) ∧
            s = series_sum (amount <$> filter (λ t, description t = m) frame))
    as Hrow.
  { intros frame m s Hin. unfold top_merchants in Hin.
    apply subseteq_take in Hin.
    rewrite sort_values_desc_Permutation in Hin.
    apply groupby_sum_elem in Hin as [(t & Ht & [= Hm]) ->].
    split; [by exists t|]. f_equal. f_equal.
    apply list_filter_iff. intros t'. split; [by intros [= ?] | by intros ->]. }
  assert (∀ (frame : list Transaction) (excluded : list string) m,
            m ∈ excluded →
            m ∉ (top_merchants (filtered_data frame excluded)).*1) as Hexcl.
  { intros frame excluded m Hm Hin. apply list_elem_of_fmap in Hin as ([m' s] & -> & Hin).
    apply Hrow in Hin as [(t & Ht & Hd) _]. simpl in *.
    apply filtered_data_elem in Ht as [_ Ht]. by rewrite Hd in Ht. }
  set (filtered := filtered_data data removed).
  set (groups := groupby_sum String.le (λ t, Some (description t)) filtered).
  split_and!.
  - apply Hrow.
  - unfold top_merchants. rewrite fmap_take.
    eapply sublist_NoDup; [|apply sublist_take].
    rewrite sort_values_desc_Permutation. apply groupby_sum_NoDup.
  - apply sorted_take, sort_values_desc_sorted.
  - unfold top_merchants. rewrite length_take, sort_values_desc_Permutation.
    by rewrite groupby_sum_length, omap_Some_key.
  - intros t e Ht Hnot He.
    assert ((description t,
             series_sum (amount <$> filter (λ t', description t' = description t)
                                           filtered))
            ∈ sort_values_desc groups) as Hin.
    { rewrite sort_values_desc_Permutation. apply groupby_sum_elem.
      split; [by exists t|]. f_equal. f_equal.
      apply list_filter_iff. intros t'. split; [by intros -> | by intros [= ?]]. }
    rewrite <- (take_drop 5 (sort_values_desc groups)) in Hin.
    apply elem_of_app in Hin as [Hin|Hin].
    + exfalso. apply Hnot. apply list_elem_of_fmap. by eexists (_, _).
    + apply (sorted_take_drop sum_ge (sort_values_desc groups) 5 e _
               (sort_values_desc_sorted groups) He Hin).
  - intros m. apply Hexcl.
  - intros st merchant frame. unfold filtered_view.
    rewrite get_transactions_remove_merchant.
    destruct (get_transactions st) as [data'|]; simpl; [|done].
    intros [= <-]. apply Hexcl, get_removed_merchants_elem. simpl.
    apply elem_of_union_l, elem_of_singleton. done.
Qed.

(** ** Properties of the merchant search *)

Lemma parse_plain (pat : string) :
  RE.plain pat = true →
  RE.parse pat = Some (RE.Lit <$> list_ascii_of_string pat).
Proof.
  induction pat as [|a pat IH]; [done|]. simpl.
  unfold RE.literal_char. intros H.
  apply andb_prop in H as [H Hpat]. apply andb_prop in H as [Hdot Hspecial].
  apply negb_true_iff in Hdot, Hspecial.
  apply bool_decide_eq_false in Hdot.
  rewrite decide_False, Hspecial, (IH Hpat) by done. done.
Qed.

Lemma match_here_plain (pat s : string) :
  RE.match_here (RE.Lit <$> list_ascii_of_string pat) s
  = Str.startswith (Str.lower pat) (Str.lower s).
Proof.
  revert s. induction pat as [|a pat IH]; intros s; [done|].
  destruct s as [|c s]; [done|]. simpl. rewrite IH.
  destruct (decide (Str.lower_char a = Str.lower_char c)) as [Heq|Hne].
  - by rewrite bool_decide_eq_true_2.
  - by rewrite bool_decide_eq_false_2.
Qed.

Lemma search_plain (pat s : string) :
  RE.search (RE.Lit <$> list_ascii_of_string pat) s
  = Str.contains (Str.lower pat) (Str.lower s).
Proof.
  induction s as [|c s IH]; simpl.
  - by rewrite (match_here_plain pat "").
  - by rewrite (match_here_plain pat (String c s)), IH.
Qed.

Lemma boolean_index_fmap (m : string → bool) (data : list Transaction) :
  boolean_index data (m <$> (description <$> data))
  = filter (λ t, m (description t) = true) data.
Proof.
  unfold boolean_index. induction data as [|t data IH]; [done|].
  csimpl. rewrite !filter_cons, <- IH. simpl.
  by destruct (decide (m (description t) = true)).
Qed.

Lemma merchant_search_compiled (data : list Transaction) (search : string)
    (m : string → bool) :
  re_compile_ignorecase search = Ok m →
  merchant_search data search
  = Ok {| merchant_data := filter (λ t, m (description t) = true) data;
          total_merchant :=
            series_sum (amount <$> filter (λ t, m (description t) = true) data);
          avg_merchant :=
            series_mean (groupby_sum period_le Month
                           (filter (λ t, m (description t) = true) data)).*2 |}.
Proof.
  intros Hm. unfold merchant_search, str_contains. rewrite Hm.
  unfold mbind, result_bind, mret, result_ret.
  by rewrite boolean_index_fmap.
Qed.

(** C4 (as amended). For a search text in which every character stands
    for itself, the search reads the whole frame, whatever merchants are
    excluded, and keeps, in order, the transactions in whose description the
    text occurs, case folded; the total is the sum of their amounts.  The
    average per month is the mean of the monthly totals of the matched
    transactions: each month that occurs among them has the sum of the
    amounts of the matched transactions of that month as its total, and the
    average is the sum of these totals divided by their number, the number
    of distinct months.  A matched transaction without a date counts in no
    month, and the average is [NaN] when no matched transaction has a
    date. *)
Theorem merchant_search_plain_text (st : db) (data : list Transaction)
    (search : string) :
  get_transactions st = Some data →
  search ≠ "" →
  RE.plain search = true →
  ∃ r : merchant_report,
    (∀ merchant,
       search_view (remove_merchant merchant st) search = Some (Some (Ok r)))
    ∧ search_view st search = Some (Some (Ok r))
    ∧ merchant_data r
      = filter (λ t, Str.contains (Str.lower search) (Str.lower (description t)) = true)
               data
    ∧ (∀ t, t ∈ merchant_data r ↔
            t ∈ data ∧ Str.occurs_in_ci search (description t))
    ∧ total_merchant r = series_sum (amount <$> merchant_data r)
    ∧ (∀ p s, (p, s) ∈ monthly_summary (merchant_data r) ↔
         (∃ t, t ∈ merchant_data r ∧ Month t = Some p)
         ∧ s = series_sum (amount <$> filter (λ t, Month t = Some p)
                                             (merchant_data r)))
    ∧ length (monthly_summary (merchant_data r))
      = length (remove_dups (omap Month (merchant_data r)))
    ∧ avg_merchant r
      = match (monthly_summary (merchant_data r)).*2 with
        | [] => None
        | totals => Some (Qc_sum totals / Qc_of_Z (Z.of_nat (length totals)))
        end.
Proof.
  intros Hdata Hsearch Hplain.
  assert (re_compile_ignorecase search
          = Ok (RE.search (RE.Lit <$> list_ascii_of_string search))) as Hm.
  { unfold re_compile_ignorecase. by rewrite (parse_plain _ Hplain). }
  pose proof (merchant_search_compiled data search _ Hm) as Hrun.
  assert (filter (λ t, RE.search (RE.Lit <$> list_ascii_of_string search)
                         (description t) = true) data
          = filter (λ t, Str.contains (Str.lower search)
                           (Str.lower (description t)) = true) data) as Hfilter.
  { apply list_filter_iff. intros t. by rewrite search_plain. }
  rewrite Hfilter in Hrun. eexists. split_and!.
  - intros merchant. unfold search_view, search_block.
    rewrite get_transactions_remove_merchant, Hdata. simpl.
    rewrite decide_False by done. by rewrite Hrun.
  - unfold search_view, search_block. rewrite Hdata. simpl.
    rewrite decide_False by done. by rewrite Hrun.
  - done.
  - intros t. simpl. rewrite list_elem_of_filter, contains_spec. tauto.
  - done.
  - intros p s. apply groupby_sum_elem.
  - apply groupby_sum_length.
  - simpl. unfold series_mean, monthly_summary.
    by destruct ((groupby_sum period_le Month _).*2).
Qed.

Lemma merchant_search_none (data : list Transaction) (search : string)
    (m : string → bool) :
  re_compile_ignorecase search = Ok m →
  Forall (λ t, m (description t) = false) data →
  merchant_search data search
  = Ok {| merchant_data := []; total_merchant := 0; avg_merchant := None |}.
Proof.
  intros Hm Hnone. rewrite (merchant_search_compiled data search m Hm).
  assert (filter (λ t, m (description t) = true) data = []) as ->; [|done].
  induction Hnone as [|t data Ht _ IH]; [done|].
  rewrite filter_cons_False; [done|]. by rewrite Ht.
Qed.

Lemma unterminated_group_parse (pat : string) :
  RE.unterminated_group pat = true → RE.parse pat = None.
Proof.
  induction pat as [|a pat IH]; [done|]. simpl.
  destruct (decide (a = "("%char)) as [->|Hopen]; [done|].
  destruct (decide (a = "."%char)) as [->|Hdot].
  { intros Hrest. by rewrite IH. }
  destruct (RE.special a); [done|].
  intros Hrest. by rewrite IH.
Qed.

(** C9 (as amended). A search text of ordinary characters that occurs in
    no description, case folded, is compiled and matches nothing: the search
    completes with an empty matched frame, the total 0 and the average per
    month [NaN].  So does any search text that [re] compiles to a pattern
    that matches no description.  A search text that opens a group and never
    closes it is not compiled: the search raises [re.error], whatever the
    descriptions are. *)
Theorem merchant_search_no_match (data : list Transaction) (search : string) :
  (RE.plain search = true →
   Forall (λ t, ¬ Str.occurs_in_ci search (description t)) data →
   merchant_search data search
   = Ok {| merchant_data := []; total_merchant := 0; avg_merchant := None |})
  ∧ (∀ m, re_compile_ignorecase search = Ok m →
          Forall (λ t, m (description t) = false) data →
          merchant_search data search
          = Ok {| merchant_data := []; total_merchant := 0;
                  avg_merchant := None |})
  ∧ (RE.unterminated_group search = true →
     merchant_search data search = Raise ReError).
Proof.
  split_and!.
  - intros Hplain Hnone.
    apply (merchant_search_none data search
             (RE.search (RE.Lit <$> list_ascii_of_string search))).
    + unfold re_compile_ignorecase. by rewrite (parse_plain _ Hplain).
    + eapply Forall_impl; [exact Hnone|]. intros t Ht. simpl in Ht.
      rewrite search_plain. by apply contains_false_spec.
  - apply merchant_search_none.
  - intros Hopen. unfold merchant_search, str_contains, re_compile_ignorecase.
    by rewrite (unterminated_group_parse _ Hopen), Hopen.
Qed.

(** C10. There are a store and a text [s] such that the search for [s]
    matches some transactions and, after [remove_merchant s], every matched
    transaction is still in the filtered frame. *)
Theorem search_hit_survives_exclusion :
  ∃ (st : db) (s : string) (data : list Transaction) (r : merchant_report)
    (filtered : list Transaction),
    get_transactions st = Some data
    ∧ search_view st s = Some (Some (Ok r))
    ∧ merchant_data r ≠ []
    ∧ filtered_view (remove_merchant s st) = Some filtered
    ∧ ∀ t, t ∈ merchant_data r → t ∈ filtered.
Proof.
  set (row := {| sql_id := 1; sql_date := Text "2024-03-05";
                 sql_description := Text "Starbucks Downtown";
                 sql_category := Text "Coffee";
                 sql_amount := Number (Q2Qc (9 # 2)) |}).
  set (t := {| id := 1; date := at_label (to_datetime [Text "2024-03-05"]) 0;
               description := "Starbucks Downtown";
               category := Some "Coffee";
               amount := Some (Q2Qc (9 # 2)) |}).
  exists {| transactions := [row]; removed_merchants := ∅ |}, "Starbucks", [t].
  pose proof (merchant_search_compiled [t] "Starbucks" _ eq_refl) as Hrun.
  eexists. exists [t]. split_and!.
  - done.
  - unfold search_view, search_block.
    change (get_transactions {| transactions := [row]; removed_merchants := ∅ |})
      with (Some [t]).
    simpl. by rewrite Hrun.
  - done.
  - unfold filtered_view, get_removed_merchants. simpl.
    rewrite (right_id_L ∅ (∪)), elements_singleton. done.
  - simpl. intros t' Ht'. by apply list_elem_of_filter in Ht' as [_ ?].
Qed.

(** ** Properties of the export *)

(** C8 (as amended). The export block writes the file when its button is
    pressed and leaves it alone otherwise; the file has the six columns of
    the filtered frame: the table columns [id], [date], [description],
    [category], [amount] and the derived [Month]; it has one record per
    filtered transaction, in order, holding the fields of that
    transaction. *)
Theorem export_writes_filtered_frame (filtered : list Transaction)
    (file : option csv_file) :
  export_block false filtered file = file
  ∧ export_block true filtered file = Some (to_csv filtered)
  ∧ header (to_csv filtered)
    = ["id"; "date"; "description"; "category"; "amount"; "Month"]
  ∧ length (records (to_csv filtered)) = length filtered
  ∧ (∀ i t, filtered !! i = Some t →
       records (to_csv filtered) !! i
       = Some [CsvInt (id t); CsvDate (date t); CsvText (Some (description t));
               CsvText (category t); CsvFloat (amount t); CsvPeriod (Month t)])
  ∧ (∀ col, col ∈ expected_cols → Str.lower col ∈ header (to_csv filtered)).
Proof.
  split_and!; try done.
  - simpl. by rewrite length_fmap.
  - intros i t Ht. simpl. by rewrite list_lookup_fmap, Ht.
  - intros col Hcol. unfold expected_cols in Hcol.
    repeat (apply elem_of_cons in Hcol as [->|Hcol]; [set_solver|]).
    by apply elem_of_nil in Hcol.
Qed.

Lemma mapM_imap_pair {A B C : Type} (f : nat → A → B) (g : B → option C)
    (l : list A) :
  mapM g (imap f l) = mapM (λ ir, g (f ir.1 ir.2)) (imap pair l).
Proof.
  revert f.
  assert (∀ (k : nat → nat) (f : nat → A → B),
            mapM g (imap (λ i, f (k i)) l)
            = mapM (λ ir, g (f ir.1 ir.2)) (imap (λ i, pair (k i)) l)) as Hgen.
  { induction l as [|x l IH]; intros k f; [done|].
    rewrite !imap_cons. unfold compose.
    specialize (IH (λ i, k (S i)) f). cbv beta in IH.
    csimpl. destruct (g (f (k 0%nat) x)) as [y|]; [|done].
    cbn [mbind option_bind]. f_equal. exact IH. }
  intros f. apply (Hgen (λ i, i) f).
Qed.

(** The typed frame is the frame of [read_sql], row by row. *)
Lemma get_transactions_read_sql (st : db) :
  get_transactions st = mapM (λ dr, read_row dr.1 dr.2) (read_sql st).
Proof.
  unfold get_transactions, read_sql.
  by rewrite (mapM_imap_pair _ (λ dr, read_row dr.1 dr.2)).
Qed.

Lemma length_read_sql (st : db) : length (read_sql st) = length (transactions st).
Proof. unfold read_sql. apply length_imap. Qed.

(** C7. When ingestion of an upload completes, the table is the prior
    table followed by one new row per row of the upload: its row count, and
    that of the frame read back, grow by the size of the upload, whatever
    the cells of the table hold; nothing is compared with the rows already
    there, so ingesting the same upload again completes and the frame read
    back has grown by as many rows again. *)
Theorem ingestion_appends_batch (df : DataFrame) (st st' : db) :
  add_transactions df st = Ok st' →
  (∃ new, transactions st' = transactions st ++ new
          ∧ length new = length (rows df))
  ∧ length (transactions st') = (length (transactions st) + length (rows df))%nat
  ∧ length (read_sql st') = (length (read_sql st) + length (rows df))%nat
  ∧ (∀ data, get_transactions st = Some data → length data = length (read_sql st))
  ∧ (∀ data', get_transactions st' = Some data' →
              length data' = length (read_sql st'))
  ∧ (∀ data data', get_transactions st = Some data →
                   get_transactions st' = Some data' →
                   length data' = (length data + length (rows df))%nat)
  ∧ (∃ st'', add_transactions df st' = Ok st''
             ∧ length (transactions st'')
               = (length (transactions st) + 2 * length (rows df))%nat
             ∧ length (read_sql st'')
               = (length (read_sql st) + 2 * length (rows df))%nat).
Proof.
  intros Hadd.
  destruct (add_transactions_spec df st st' Hadd) as (_ & new & Hnew & Hrows & _).
  assert (length (transactions st')
          = (length (transactions st) + length (rows df))%nat) as Hlen.
  { rewrite Hnew, length_app. lia. }
  assert (∀ st0 data0, get_transactions st0 = Some data0 →
                       length data0 = length (read_sql st0)) as Htyped.
  { intros st0 data0 Hdata0. rewrite get_transactions_read_sql in Hdata0.
    by apply length_mapM in Hdata0. }
  split_and!.
  - exists new. done.
  - done.
  - by rewrite !length_read_sql.
  - apply Htyped.
  - apply Htyped.
  - intros data data' Hdata Hdata'.
    rewrite (Htyped _ _ Hdata), (Htyped _ _ Hdata'), !length_read_sql. done.
  - destruct (proj2 (add_transactions_Ok_iff df st')) as [st'' Hagain].
    { apply (add_transactions_Ok_iff df st). by exists st'. }
    exists st''. split; [done|].
    destruct (add_transactions_spec df st' st'' Hagain)
      as (_ & new' & Hnew' & Hrows' & _).
    rewrite !length_read_sql, Hnew', length_app. lia.
Qed.

(** What ingestion stores for the row [i] of an upload: the date as
    [strftime] writes it; in the column category the label of [categorize]
    where the cell of the file is missing, the cell of the file where it is
    not, and the blank text where the file has no column Category. *)
Lemma stored_row_of_upload (df : DataFrame) (st st' : db) (i : nat)
    (r : gmap string value) :
  add_transactions df st = Ok st' →
  rows df !! i = Some r →
  ∃ (row : sql_row) (s : string),
    transactions st' !! (length (transactions st) + i)%nat = Some row
    ∧ source_cell "Description" df r = Text s
    ∧ sql_date row
      = strftime (at_label (to_datetime (source_cell "Date" df <$> rows df)) i)
    ∧ sql_category row
      = if decide ("Category" ∈ columns df)
        then match cell "Category" r with
             | NaN => Text (categorize s)
             | v => v
             end
        else Text "".
Proof.
  intros Hadd Hr.
  destruct (add_transactions_spec df st st' Hadd) as (_ & new & -> & Hlen & Hrows).
  destruct (lookup_lt_is_Some_2 new i) as [row Hrow].
  { rewrite Hlen. by eapply lookup_lt_Some. }
  destruct (Hrows i r row Hr Hrow) as (s & Hs & _ & Hd & Hc & _).
  exists row, s. split_and!; try done.
  - by rewrite lookup_app_r, Nat.add_comm, Nat.add_sub by lia.
  - rewrite Hc. unfold source_cell, fillna.
    destruct (decide ("Category" ∈ columns df)); [|done].
    by destruct (cell "Category" r).
Qed.

(** * Further properties *)

(** ** More on strings and on [categorize] *)

Lemma string_app_assoc (a b c : string) : (a +:+ b) +:+ c = a +:+ (b +:+ c).
Proof.
  induction a as [|x a IH]; [done|].
  change (String x ((a +:+ b) +:+ c) = String x (a +:+ (b +:+ c))). by f_equal.
Qed.

Lemma lower_char_idemp (a : ascii) :
  Str.lower_char (Str.lower_char a) = Str.lower_char a.
Proof. by destruct a as [[] [] [] [] [] [] [] []]. Qed.

Lemma lower_idemp (s : string) : Str.lower (Str.lower s) = Str.lower s.
Proof.
  induction s as [|a s IH]; simpl; [done|]. by rewrite lower_char_idemp, IH.
Qed.

Lemma lower_app (a b : string) :
  Str.lower (a +:+ b) = Str.lower a +:+ Str.lower b.
Proof.
  induction a as [|x a IH]; [done|].
  change (String (Str.lower_char x) (Str.lower (a +:+ b))
          = String (Str.lower_char x) (Str.lower a +:+ Str.lower b)).
  by f_equal.
Qed.

Lemma occurs_in_context (sub s pre post : string) :
  Str.occurs_in sub s → Str.occurs_in sub (pre +:+ s +:+ post).
Proof.
  intros (p & q & ->). exists (pre +:+ p), (q +:+ post).
  by rewrite !string_app_assoc.
Qed.

Lemma categorize_items_keyword (items : list (string * string)) (description : string) :
  categorize_items items description = "Other"
  ∨ ∃ kw, (kw, categorize_items items description) ∈ items
          ∧ Str.occurs_in_ci kw description.
Proof.
  induction items as [|[kw c] rest IH]; [by left|]. simpl.
  destruct (Str.contains (Str.lower kw) (Str.lower description)) eqn:Hkw.
  - right. exists kw. split; [left | by apply contains_spec].
  - destruct IH as [IH | (kw' & Hin & Hocc)]; [by left|].
    right. exists kw'. split; [by right | done].
Qed.

Lemma categorize_items_other (items : list (string * string)) (description : string) :
  Forall (λ rule, rule.2 ≠ "Other") items →
  categorize_items items description = "Other" →
  ∀ kw c, (kw, c) ∈ items → ¬ Str.occurs_in_ci kw description.
Proof.
  induction 1 as [|[kw0 c0] rest Hc0 _ IH]; intros Hother kw c Hin.
  - by apply elem_of_nil in Hin.
  - simpl in Hother.
    destruct (Str.contains (Str.lower kw0) (Str.lower description)) eqn:Hkw0;
      [done|].
    apply elem_of_cons in Hin as [[= -> ->] | Hin].
    + by apply contains_false_spec.
    + by apply (IH Hother kw c).
Qed.

Lemma CATEGORY_RULES_labels : Forall (λ rule, rule.2 ≠ "Other") CATEGORY_RULES.
Proof. unfold CATEGORY_RULES. repeat constructor; discriminate. Qed.

(** X1. [categorize] answers "Other" exactly when no configured keyword
    occurs in the description, case folded; any other answer is the label
    of a rule whose keyword occurs in it. *)
Theorem categorize_other_iff_no_keyword (description : string) :
  (categorize description = "Other" ↔
   ∀ kw c, (kw, c) ∈ CATEGORY_RULES → ¬ Str.occurs_in_ci kw description)
  ∧ (categorize description = "Other"
     ∨ ∃ kw, (kw, categorize description) ∈ CATEGORY_RULES
             ∧ Str.occurs_in_ci kw description).
Proof.
  split; [split|].
  - apply categorize_items_other, CATEGORY_RULES_labels.
  - apply categorize_items_none.
  - apply categorize_items_keyword.
Qed.

(** X2. The label depends on the description only through its lower-case
    form: descriptions that differ in the case of their letters get the same
    label, and so does the lower-cased description. *)
Theorem categorize_ignores_case (d d' : string) :
  Str.lower d = Str.lower d' →
  categorize d = categorize d' ∧ categorize (Str.lower d) = categorize d.
Proof.
  assert (∀ a b, Str.lower a = Str.lower b → categorize a = categorize b) as Hcase.
  { intros a b Hab. unfold categorize.
    induction CATEGORY_RULES as [|[kw c] rest IH]; [done|].
    simpl. by rewrite Hab, IH. }
  intros Hd. split; [by apply Hcase|]. apply Hcase, lower_idemp.
Qed.

(** X3. Text added before or after a description never loses its
    category: when a description is not labelled "Other", neither is any
    longer description that contains it. *)
Theorem categorize_survives_context (d pre post : string) :
  categorize d ≠ "Other" →
  categorize (pre +:+ d +:+ post) ≠ "Other".
Proof.
  intros Hd Hlong.
  destruct (categorize_items_keyword CATEGORY_RULES d) as [? | (kw & Hin & Hocc)];
    [done|].
  apply (categorize_items_other CATEGORY_RULES _ CATEGORY_RULES_labels Hlong
           kw _ Hin).
  unfold Str.occurs_in_ci in *. rewrite !lower_app.
  by apply occurs_in_context.
Qed.

(** ** More on ingestion *)

(** X4. A file with a cell of the column Description that is not a text
    (a blank cell or a number) is rejected whole: [add_transactions] does
    not complete, none of its rows is written, also not the rows that have a
    description, and the upload loop stops at it, so that the files after it
    are not ingested. *)
Theorem blank_description_rejects_the_file (df : DataFrame)
    (files : list DataFrame) (st : db) :
  Exists (λ r, ∀ s, source_cell "Description" df r ≠ Text s) (rows df) →
  (∀ st', add_transactions df st ≠ Ok st')
  ∧ ∃ e, upload_files (df :: files) st = (st, Some e).
Proof.
  intros Hex. apply Exists_exists in Hex as (r & Hr & Hnot).
  assert (∀ st', add_transactions df st ≠ Ok st') as Hno.
  { intros st' Hadd.
    assert (Forall (λ r, ∃ s, source_cell "Description" df r = Text s) (rows df))
      as Hall by (apply (add_transactions_Ok_iff df st); by exists st').
    rewrite Forall_forall in Hall. destruct (Hall r Hr) as [s Hs].
    by apply (Hnot s). }
  split; [done|]. simpl.
  destruct (add_transactions df st) as [st'|e] eqn:Hadd.
  - by destruct (Hno st').
  - by exists e.
Qed.

(** X5. An ingestion that completes leaves the excluded merchants as they
    were, and every row it writes has a text as its description, written as
    in the file, a category that is not missing, and, where the amount cell
    of the file is a number or is missing, that cell as its amount. *)
Theorem ingestion_writes_complete_rows (df : DataFrame) (st st' : db) :
  add_transactions df st = Ok st' →
  get_removed_merchants st' = get_removed_merchants st
  ∧ ∀ i r, rows df !! i = Some r →
      ∃ (row : sql_row) (s : string),
        transactions st' !! (length (transactions st) + i)%nat = Some row
        ∧ source_cell "Description" df r = Text s
        ∧ sql_description row = Text s
        ∧ sql_category row ≠ NaN
        ∧ ((∀ a, source_cell "Amount" df r ≠ Text a) →
           sql_amount row = source_cell "Amount" df r).
Proof.
  intros Hadd.
  destruct (add_transactions_spec df st st' Hadd) as (Hrm & new & -> & Hlen & Hrows).
  split; [unfold get_removed_merchants; by rewrite Hrm|].
  intros i r Hr.
  destruct (lookup_lt_is_Some_2 new i) as [row Hrow].
  { rewrite Hlen. by eapply lookup_lt_Some. }
  destruct (Hrows i r row Hr Hrow) as (s & Hs & Hd & _ & Hc & Ha).
  exists row, s. split_and!; try done.
  - by rewrite lookup_app_r, Nat.add_comm, Nat.add_sub by lia.
  - rewrite Hc. unfold fillna. by destruct (source_cell "Category" df r).
Qed.

Lemma foldr_max_last (x i : Z) (ids : list Z) :
  foldr Z.max (Z.max x i) ids = Z.max x (foldr Z.max i ids).
Proof. induction ids as [|j ids IH]; simpl; [done|]. rewrite IH. lia. Qed.

Lemma next_id_above (table : list sql_row) (row : sql_row) :
  row ∈ table → (sql_id row < next_id table)%Z.
Proof.
  unfold next_id. destruct table as [|r0 table]; [by intros ?%elem_of_nil|].
  rewrite fmap_cons. intros Hin.
  assert (∀ i ids, (i ≤ foldr Z.max i ids)%Z) as Hfirst.
  { intros i ids. induction ids as [|j ids IH]; simpl; lia. }
  assert (∀ i ids x, x ∈ ids → (x ≤ foldr Z.max i ids)%Z) as Hrest.
  { intros i ids x. induction ids as [|j ids IH]; [by intros ?%elem_of_nil|].
    simpl. intros [->|Hx]%elem_of_cons; [lia|]. specialize (IH Hx). lia. }
  apply elem_of_cons in Hin as [->|Hin].
  - specialize (Hfirst (sql_id r0) (sql_id <$> table)). lia.
  - specialize (Hrest (sql_id r0) (sql_id <$> table) (sql_id row)
                  (list_elem_of_fmap_2 sql_id _ _ Hin)). lia.
Qed.

Lemma next_id_insert_row (table : list sql_row) (r : upload_row) :
  next_id (insert_row table r) = (next_id table + 1)%Z.
Proof.
  unfold insert_row, next_id. rewrite fmap_app.
  destruct (sql_id <$> table) as [|i ids] eqn:Hids; simpl; [done|].
  rewrite foldr_app. simpl. rewrite foldr_max_last. lia.
Qed.

Lemma to_sql_ids (rs : list upload_row) (table : list sql_row) :
  ∃ new, to_sql rs table = table ++ new
         ∧ length new = length rs
         ∧ ∀ j row, new !! j = Some row →
                    sql_id row = (next_id table + Z.of_nat j)%Z.
Proof.
  unfold to_sql. revert table. induction rs as [|r rs IH]; intros table; simpl.
  - exists []. rewrite app_nil_r. split_and!; [done..|]. by intros j row ?.
  - destruct (IH (insert_row table r)) as (new & -> & Hlen & Hids).
    unfold insert_row at 1. eexists (_ :: new). rewrite <- app_assoc.
    split_and!; [done | simpl; by rewrite Hlen |].
    intros [|j] row Hrow; simpl in Hrow.
    + injection Hrow as <-. simpl. lia.
    + rewrite (Hids j row Hrow), next_id_insert_row. lia.
Qed.

(** X6. As long as the ids stay within the rowids of SQLite, which end at
    [2 ^ 63 - 1], the rows an ingestion writes get the ids that follow the
    largest id in the table, one after the other in the order of the file;
    every id already there is smaller, so ids that were distinct stay
    distinct. *)
Theorem ingestion_assigns_fresh_ids (df : DataFrame) (st st' : db) :
  add_transactions df st = Ok st' →
  (next_id (transactions st) + Z.of_nat (length (rows df)) ≤ 2 ^ 63)%Z →
  (∀ row, row ∈ transactions st → (sql_id row < next_id (transactions st))%Z)
  ∧ (∀ j row,
       transactions st' !! (length (transactions st) + j)%nat = Some row →
       sql_id row = (next_id (transactions st) + Z.of_nat j)%Z)
  ∧ (NoDup (sql_id <$> transactions st) → NoDup (sql_id <$> transactions st')).
Proof.
  unfold add_transactions, mbind, result_bind, mret, result_ret.
  destruct (fill_category _) as [rs|e]; [|done]. intros [= <-] _. simpl.
  destruct (to_sql_ids rs (transactions st)) as (new & -> & _ & Hids).
  assert (∀ j row, (transactions st ++ new) !! (length (transactions st) + j)%nat
                   = Some row →
                   sql_id row = (next_id (transactions st) + Z.of_nat j)%Z) as Hnew.
  { intros j row Hrow. apply Hids. rewrite lookup_app_r in Hrow by lia.
    by rewrite Nat.add_comm, Nat.add_sub in Hrow. }
  split_and!; [apply next_id_above | done |].
  intros Hold. apply NoDup_alt. intros i j x Hi Hj.
  apply list_lookup_fmap_Some in Hi as (ri & -> & Hi).
  apply list_lookup_fmap_Some in Hj as (rj & Heq & Hj).
  destruct (decide (i < length (transactions st))%nat) as [Hilt|Hige];
    destruct (decide (j < length (transactions st))%nat) as [Hjlt|Hjge].
  - rewrite lookup_app_l in Hi, Hj by done.
    apply (NoDup_lookup _ i j (sql_id ri) Hold);
      rewrite list_lookup_fmap; [by rewrite Hi | rewrite Hj; simpl; by rewrite Heq].
  - rewrite lookup_app_l in Hi by done.
    apply list_elem_of_lookup_2, next_id_above in Hi.
    replace j with (length (transactions st) + (j - length (transactions st)))%nat
      in Hj by lia.
    apply Hnew in Hj. lia.
  - rewrite lookup_app_l in Hj by done.
    apply list_elem_of_lookup_2, next_id_above in Hj.
    replace i with (length (transactions st) + (i - length (transactions st)))%nat
      in Hi by lia.
    apply Hnew in Hi. lia.
  - replace i with (length (transactions st) + (i - length (transactions st)))%nat
      in Hi by lia.
    replace j with (length (transactions st) + (j - length (transactions st)))%nat
      in Hj by lia.
    apply Hnew in Hi, Hj. lia.
Qed.

(** X7. An upload without rows (a file with a header only) completes and
    leaves the store as it was. *)
Theorem add_transactions_no_rows (df : DataFrame) (st : db) :
  rows df = [] → add_transactions df st = Ok st.
Proof.
  intros Hrows.
  assert (rows (foldl fill_blank df expected_cols) = []) as Hfilled.
  { destruct (fill_blanks_spec expected_cols df) as [_ H].
    apply Forall2_length in H. rewrite Hrows in H.
    by apply nil_length_inv. }
  unfold add_transactions, select_expected. rewrite Hfilled.
  destruct st as [table removed]. done.
Qed.


(** X9. The upload loop only appends and never touches the excluded
    merchants.  When it completes, the table has grown by the rows of all
    the files.  When it raises, the files before the one that raised are in
    the table, and nothing of that file or of the files after it. *)
Theorem upload_files_spec (files : list DataFrame) (st st' : db) (o : option exn) :
  upload_files files st = (st', o) →
  (∃ new, transactions st' = transactions st ++ new)
  ∧ removed_merchants st' = removed_merchants st
  ∧ match o with
    | None =>
        length (transactions st')
        = (length (transactions st) + sum_list (length ∘ rows <$> files))%nat
    | Some e =>
        ∃ before bad after,
          files = before ++ bad :: after
          ∧ upload_files before st = (st', None)
          ∧ add_transactions bad st' = Raise e
    end.
Proof.
  revert st. induction files as [|df files IH]; intros st; simpl.
  - intros [= <- <-]. split_and!; [exists []; by rewrite app_nil_r | done |].
    change (length (transactions st) = (length (transactions st) + 0)%nat). lia.
  - destruct (add_transactions df st) as [st1|e] eqn:Hadd.
    + intros Hrest. destruct (IH st1 Hrest) as ((new' & Hnew') & Hrm' & Ho).
      destruct (add_transactions_spec df st st1 Hadd) as (Hrm & new & Hnew & Hlen & _).
      split_and!.
      * exists (new ++ new'). by rewrite Hnew', Hnew, app_assoc.
      * by rewrite Hrm'.
      * destruct o as [e|].
        -- destruct Ho as (before & bad & after & -> & Hbefore & Hbad).
           exists (df :: before), bad, after. simpl. by rewrite Hadd.
        -- rewrite Ho, Hnew, length_app, Hlen. symmetry. apply Nat.add_assoc.
    + intros [= <- <-]. split_and!; [exists []; by rewrite app_nil_r | done |].
      by exists [], df, files.
Qed.

(** ** More on the excluded merchants and the filter *)

(** X10. [remove_merchant] is an insertion into a set: the list read back
    has no duplicate and holds the merchant and what it held before;
    excluding a merchant twice is excluding it once; two exclusions in
    either order give lists with the same members, and so the same filtered
    frame; the table of transactions is not touched. *)
Theorem remove_merchant_is_set_insert (m m' : string) (st : db) :
  NoDup (get_removed_merchants (remove_merchant m st))
  ∧ (∀ x, x ∈ get_removed_merchants (remove_merchant m st) ↔
          x = m ∨ x ∈ get_removed_merchants st)
  ∧ remove_merchant m (remove_merchant m st) = remove_merchant m st
  ∧ get_removed_merchants (remove_merchant m (remove_merchant m' st))
    ≡ₚ get_removed_merchants (remove_merchant m' (remove_merchant m st))
  ∧ (∀ data,
       filtered_data data
         (get_removed_merchants (remove_merchant m (remove_merchant m' st)))
       = filtered_data data
           (get_removed_merchants (remove_merchant m' (remove_merchant m st))))
  ∧ transactions (remove_merchant m st) = transactions st.
Proof.
  assert (∀ x,
            x ∈ get_removed_merchants (remove_merchant m (remove_merchant m' st))
            ↔ x ∈ get_removed_merchants
                     (remove_merchant m' (remove_merchant m st))) as Hsame.
  { intros x. rewrite !get_removed_merchants_elem. simpl.
    rewrite !elem_of_union, !elem_of_singleton. tauto. }
  split_and!.
  - unfold get_removed_merchants. apply NoDup_elements.
  - intros x. rewrite !get_removed_merchants_elem. simpl.
    by rewrite elem_of_union, elem_of_singleton.
  - unfold remove_merchant. simpl. f_equal.
    by rewrite (assoc_L (∪)), (idemp_L (∪)).
  - apply NoDup_Permutation; [| |exact Hsame];
      unfold get_removed_merchants; apply NoDup_elements.
  - intros data. unfold filtered_data. apply list_filter_iff. intros t.
    by rewrite Hsame.
  - done.
Qed.

(** X11. Excluding a text that is the description of no transaction
    changes nothing in the filtered frame, also when the text occurs inside
    descriptions. *)
Theorem excluding_absent_merchant_changes_nothing (data : list Transaction)
    (m : string) (st : db) :
  Forall (λ t, description t ≠ m) data →
  filtered_data data (get_removed_merchants (remove_merchant m st))
  = filtered_data data (get_removed_merchants st).
Proof.
  clear to_datetime re_compile_rest.
  intros Habsent. unfold filtered_data. apply filter_iff_in. intros t Ht.
  rewrite !get_removed_merchants_elem. simpl.
  rewrite not_elem_of_union, not_elem_of_singleton.
  rewrite Forall_forall in Habsent. specialize (Habsent t Ht). tauto.
Qed.

(** X12. The filter splits the frame: the filtered frame followed by the
    transactions of excluded merchants is the frame, each transaction once,
    and no transaction of the filtered frame is one of an excluded merchant.
    Filtering a filtered frame again changes nothing, and the filtered frame
    is never longer than the frame. *)
Theorem filtered_data_splits_the_frame (data : list Transaction) (removed : list string) :
  filtered_data data removed ++ filter (λ t, description t ∈ removed) data
  ≡ₚ data
  ∧ (∀ t, t ∈ filtered_data data removed →
          t ∉ filter (λ t, description t ∈ removed) data)
  ∧ filtered_data (filtered_data data removed) removed = filtered_data data removed
  ∧ (length (filtered_data data removed) ≤ length data)%nat.
Proof.
  split_and!.
  - unfold filtered_data.
    rewrite (filter_disjoint_app (λ t, description t ∉ removed)
               (λ t, description t ∈ removed)) by (intros t Hn Hin; by apply Hn).
    rewrite (filter_iff_in _ (λ _, True)).
    + clear. induction data as [|t data IH]; [done|].
      by rewrite filter_cons_True, IH.
    + intros t _. destruct (decide (description t ∈ removed)); tauto.
  - intros t Ht Hin. apply filtered_data_elem in Ht as [_ Hn].
    apply list_elem_of_filter in Hin as [Hin _]. by apply Hn.
  - unfold filtered_data. rewrite list_filter_filter. apply list_filter_iff. tauto.
  - apply sublist_length, sublist_filter.
Qed.

(** ** More on the dashboard aggregates *)

Global Instance period_le_total : Total period_le.
Proof. intros [y1 m1] [y2 m2]. unfold period_le. simpl. lia. Qed.

Global Instance period_le_trans : Transitive period_le.
Proof. intros [y1 m1] [y2 m2] [y3 m3]. unfold period_le. simpl. lia. Qed.

Lemma groupby_sum_keys_eq {K : Type} `{EqDecision K} (le : relation K)
    `{!RelDecision le} (key : Transaction → option K) (frame : list Transaction) :
  (groupby_sum le key frame).*1 = merge_sort le (remove_dups (omap key frame)).
Proof.
  unfold groupby_sum. rewrite <- list_fmap_compose.
  generalize (merge_sort le (remove_dups (omap key frame))). intros ks.
  induction ks as [|k ks IH]; csimpl; [done | by f_equal].
Qed.

(** X13. The monthly summary lists the months of the frame in ascending
    order, each month once, and gives each month the sum of the amounts of
    its transactions. *)
Theorem monthly_summary_by_ascending_month (frame : list Transaction) :
  StronglySorted period_le (monthly_summary frame).*1
  ∧ NoDup (monthly_summary frame).*1
  ∧ ∀ p s, (p, s) ∈ monthly_summary frame ↔
      (∃ t, t ∈ frame ∧ Month t = Some p)
      ∧ s = series_sum (amount <$> filter (λ t, Month t = Some p) frame).
Proof.
  unfold monthly_summary. split_and!.
  - rewrite groupby_sum_keys_eq. apply StronglySorted_merge_sort; apply _.
  - apply groupby_sum_NoDup.
  - intros p s. apply groupby_sum_elem.
Qed.

(** X14. The category totals have one row per category of the frame, each
    with the sum of the amounts of its transactions, in descending order of
    the sum.  The rows share no transaction: put one after the other, the
    transactions they sum are the transactions that have a category, each
    once; a transaction without a category counts in no row. *)
Theorem top_categories_spec (frame : list Transaction) :
  (∀ c s, (c, s) ∈ top_categories frame ↔
     (∃ t, t ∈ frame ∧ category t = Some c)
     ∧ s = series_sum (amount <$> filter (λ t, category t = Some c) frame))
  ∧ NoDup (top_categories frame).*1
  ∧ StronglySorted sum_ge (top_categories frame)
  ∧ length (top_categories frame) = length (remove_dups (omap category frame))
  ∧ concat ((λ c, filter (λ t, category t = Some c) frame)
              <$> (top_categories frame).*1)
    ≡ₚ filter (λ t, is_Some (category t)) frame.
Proof.
  assert (NoDup (top_categories frame).*1) as Hkeys.
  { unfold top_categories. rewrite sort_values_desc_Permutation.
    apply groupby_sum_NoDup. }
  split_and!.
  - intros c s. unfold top_categories. rewrite sort_values_desc_Permutation.
    apply groupby_sum_elem.
  - done.
  - apply sort_values_desc_sorted.
  - unfold top_categories.
    rewrite sort_values_desc_Permutation. apply groupby_sum_length.
  - rewrite group_rows_Permutation by done.
    erewrite filter_iff_in; [done|]. intros t Ht. unfold key_in, top_categories.
    rewrite list_elem_of_fmap. split.
    + intros (c & Hc & _). by rewrite Hc.
    + intros [c Hc]. exists c. split; [done|].
      rewrite sort_values_desc_Permutation, groupby_sum_keys.
      rewrite elem_of_remove_dups, list_elem_of_omap. by exists t.
Qed.

(** X15. When the frame has at most five merchants, the top merchants
    show them all, each with the sum of the amounts of its transactions, and
    every transaction of the frame counts in exactly one row: put one after
    the other, the transactions the rows sum are the frame, each transaction
    once. *)
Theorem top_merchants_of_few_merchants (frame : list Transaction) :
  (length (remove_dups (description <$> frame)) ≤ 5)%nat →
  (∀ t, t ∈ frame →
        (description t,
         series_sum (amount <$> filter (λ t', description t' = description t)
                                       frame))
        ∈ top_merchants frame)
  ∧ length (top_merchants frame) = length (remove_dups (description <$> frame))
  ∧ concat ((λ m, filter (λ t, description t = m) frame)
              <$> (top_merchants frame).*1)
    ≡ₚ frame.
Proof.
  intros Hfew. unfold top_merchants.
  rewrite take_ge.
  2:{ rewrite sort_values_desc_Permutation, groupby_sum_length.
      by rewrite omap_Some_key. }
  split_and!.
  - intros t Ht. rewrite sort_values_desc_Permutation. apply groupby_sum_elem.
    split; [by exists t|]. do 2 f_equal. apply list_filter_iff. intros t'.
    split; [by intros -> | by intros [= ->]].
  - rewrite sort_values_desc_Permutation, groupby_sum_length.
    by rewrite omap_Some_key.
  - erewrite (list_fmap_ext _ (λ m, filter (λ t, Some (description t) = Some m)
                                            frame)).
    2:{ intros i m _. apply list_filter_iff. intros t.
        split; [by intros -> | by intros [= ->]]. }
    rewrite (group_rows_Permutation (λ t, Some (description t))).
    2:{ rewrite sort_values_desc_Permutation. apply groupby_sum_NoDup. }
    rewrite (filter_iff_in _ (λ _, True)).
    + clear. induction frame as [|t frame IH]; [done|].
      by rewrite filter_cons_True, IH.
    + intros t Ht. split; [done|]. intros _. unfold key_in.
      apply list_elem_of_fmap. exists (description t). split; [done|].
      rewrite sort_values_desc_Permutation, groupby_sum_keys.
      rewrite elem_of_remove_dups, omap_Some_key. by apply list_elem_of_fmap_2.
Qed.

(** ** More on the merchant search, the export and the frame read back *)

(** X16. For search texts in which every character stands for itself, the
    search does not depend on the case of the letters of the text: two
    texts with the same lower-case form give the same report. *)
Theorem merchant_search_ignores_case_of_text (data : list Transaction)
    (search search' : string) :
  RE.plain search = true →
  RE.plain search' = true →
  Str.lower search = Str.lower search' →
  merchant_search data search = merchant_search data search'.
Proof.
  intros Hplain Hplain' Hlower.
  rewrite (merchant_search_compiled data search
             (RE.search (RE.Lit <$> list_ascii_of_string search)))
    by (unfold re_compile_ignorecase; by rewrite (parse_plain _ Hplain)).
  rewrite (merchant_search_compiled data search'
             (RE.search (RE.Lit <$> list_ascii_of_string search')))
    by (unfold re_compile_ignorecase; by rewrite (parse_plain _ Hplain')).
  assert (filter (λ t, RE.search (RE.Lit <$> list_ascii_of_string search)
                         (description t) = true) data
          = filter (λ t, RE.search (RE.Lit <$> list_ascii_of_string search')
                           (description t) = true) data) as ->; [|done].
  apply list_filter_iff. intros t. by rewrite !search_plain, Hlower.
Qed.

(** X17. The exported file holds a record for each transaction of the
    frame whose description is not excluded, and no other record: a
    transaction of an excluded merchant is never exported. *)
Theorem exported_records_are_the_kept_transactions (data : list Transaction)
    (removed : list string) (record : list csv_cell) :
  record ∈ records (to_csv (filtered_data data removed)) ↔
  ∃ t, t ∈ data ∧ (description t ∉ removed)
       ∧ record = [CsvInt (id t); CsvDate (date t); CsvText (Some (description t));
                CsvText (category t); CsvFloat (amount t); CsvPeriod (Month t)].
Proof.
  simpl. rewrite list_elem_of_fmap. split.
  - intros (t & -> & Ht). apply filtered_data_elem in Ht as [Ht Hkept]. by exists t.
  - intros (t & Ht & Hkept & ->). exists t. split; [done|].
    by apply filtered_data_elem.
Qed.

Lemma read_row_fields (d d' : option datetime) (r : sql_row) (t t' : Transaction) :
  read_row d r = Some t → read_row d' r = Some t' →
  id t' = id t ∧ description t' = description t
  ∧ category t' = category t ∧ amount t' = amount t.
Proof.
  unfold read_row. intros Ht Ht'.
  destruct (as_str (sql_description r)); [|done].
  destruct (as_opt_str (sql_category r)); [|done].
  destruct (as_float (sql_amount r)); [|done].
  simpl in *. by injection Ht as <-; injection Ht' as <-.
Qed.

Lemma get_transactions_lookup (st : db) (data : list Transaction) (i : nat)
    (t : Transaction) :
  get_transactions st = Some data → data !! i = Some t →
  ∃ r, transactions st !! i = Some r
       ∧ read_row (at_label (to_datetime (sql_date <$> transactions st)) i) r
         = Some t.
Proof.
  unfold get_transactions. intros Hdata Ht.
  apply mapM_Some in Hdata.
  destruct (Forall2_lookup_r _ _ _ _ _ Hdata Ht) as ([j r] & Hir & Hread).
  rewrite list_lookup_imap in Hir.
  destruct (transactions st !! i) as [r'|] eqn:Hr; [|done].
  injection Hir as <- <-. by exists r'.
Qed.

(** X18. Ingestion changes no earlier transaction of the frame read back:
    when the store was readable before and is readable after, the frame
    after starts with the transactions of the frame before, with the same
    id, description, category and amount. *)
Theorem earlier_rows_read_back_unchanged (df : DataFrame) (st st' : db)
    (data data' : list Transaction) :
  add_transactions df st = Ok st' →
  get_transactions st = Some data →
  get_transactions st' = Some data' →
  ∀ i t, data !! i = Some t →
    ∃ t', data' !! i = Some t'
          ∧ id t' = id t ∧ description t' = description t
          ∧ category t' = category t ∧ amount t' = amount t.
Proof.
  intros Hadd Hdata Hdata' i t Ht.
  destruct (add_transactions_spec df st st' Hadd) as (_ & new & Hnew & _).
  destruct (get_transactions_lookup st data i t Hdata Ht) as (r & Hr & Hread).
  assert (is_Some (data' !! i)) as [t' Ht'].
  { apply lookup_lt_is_Some. unfold get_transactions in Hdata'.
    apply length_mapM in Hdata'. rewrite length_imap, Hnew, length_app in Hdata'.
    apply lookup_lt_Some in Hr. lia. }
  destruct (get_transactions_lookup st' data' i t' Hdata' Ht')
    as (r' & Hr' & Hread').
  rewrite Hnew, lookup_app_l in Hr' by by eapply lookup_lt_Some.
  rewrite Hr in Hr'. injection Hr' as <-.
  exists t'. split; [done|]. by eapply read_row_fields.
Qed.

Lemma CATEGORY_RULES_plain : Forall (λ rule, RE.plain rule.1 = true) CATEGORY_RULES.
Proof. unfold CATEGORY_RULES. repeat constructor. Qed.

(** X19. The categorizer and the search agree on the configured keywords:
    a transaction whose description [categorize] does not label "Other" is
    found by the merchant search for a configured keyword that maps to its
    label. *)
Theorem categorized_transactions_are_found (data : list Transaction)
    (t : Transaction) :
  t ∈ data →
  categorize (description t) ≠ "Other" →
  ∃ (kw : string) (r : merchant_report),
    (kw, categorize (description t)) ∈ CATEGORY_RULES
    ∧ merchant_search data kw = Ok r
    ∧ t ∈ merchant_data r.
Proof.
  intros Ht Hlabel.
  destruct (categorize_items_keyword CATEGORY_RULES (description t))
    as [? | (kw & Hin & Hocc)]; [done|].
  fold (categorize (description t)) in Hin.
  pose proof CATEGORY_RULES_plain as Hplain.
  rewrite Forall_forall in Hplain. specialize (Hplain _ Hin). simpl in Hplain.
  exists kw. eexists. split; [done|]. split.
  - apply merchant_search_compiled. unfold re_compile_ignorecase.
    by rewrite (parse_plain _ Hplain).
  - simpl. apply list_elem_of_filter. split; [|done].
    rewrite search_plain. by apply contains_spec.
Qed.

(** ** Dates written and read back *)

Lemma pretty_N_go_small (x : N) (s : string) :
  (0 < x < 10)%N → pretty_N_go x s = String (pretty_N_char x) s.
Proof.
  intros Hx. rewrite pretty_N_go_step by lia.
  rewrite N.div_small, N.mod_small by lia. apply pretty_N_go_0.
Qed.

Lemma pretty_nat_1 (n : nat) :
  (n < 10)%nat → pretty n = String (pretty_N_char (N.of_nat n)) "".
Proof.
  intros Hn. unfold pretty, pretty_nat, pretty, pretty_N.
  case_decide as H0; [by rewrite H0|].
  apply pretty_N_go_small. lia.
Qed.

Lemma pretty_nat_2 (n : nat) :
  (10 ≤ n < 100)%nat →
  pretty n = String (pretty_N_char (N.of_nat (n / 10)))
               (String (pretty_N_char (N.of_nat (n `mod` 10))) "").
Proof.
  intros Hn. unfold pretty, pretty_nat, pretty, pretty_N.
  rewrite decide_False by lia. rewrite pretty_N_go_step by lia.
  rewrite pretty_N_go_small.
  2:{ split; [apply N.div_str_pos; lia | apply N.Div0.div_lt_upper_bound; lia]. }
  by rewrite Nat2N.inj_div, Nat2N.inj_mod.
Qed.

Lemma pretty_nat_3 (n : nat) :
  (100 ≤ n < 1000)%nat →
  pretty n = String (pretty_N_char (N.of_nat (n / 100)))
              (String (pretty_N_char (N.of_nat ((n / 10) `mod` 10)))
                 (String (pretty_N_char (N.of_nat (n `mod` 10))) "")).
Proof.
  intros Hn. unfold pretty, pretty_nat, pretty, pretty_N.
  rewrite decide_False by lia. rewrite pretty_N_go_step by lia.
  rewrite pretty_N_go_step by (apply N.div_str_pos; lia).
  rewrite pretty_N_go_small.
  2:{ rewrite N.Div0.div_div.
      split; [apply N.div_str_pos; lia | apply N.Div0.div_lt_upper_bound; lia]. }
  rewrite N.Div0.div_div.
  rewrite !Nat2N.inj_mod, !Nat2N.inj_div. done.
Qed.

Lemma pretty_nat_4 (n : nat) :
  (1000 ≤ n < 100 * 100)%nat →
  pretty n = String (pretty_N_char (N.of_nat (n / 1000)))
              (String (pretty_N_char (N.of_nat ((n / 100) `mod` 10)))
                 (String (pretty_N_char (N.of_nat ((n / 10) `mod` 10)))
                    (String (pretty_N_char (N.of_nat (n `mod` 10))) ""))).
Proof.
  intros Hn. unfold pretty, pretty_nat, pretty, pretty_N.
  rewrite decide_False by lia. rewrite pretty_N_go_step by lia.
  rewrite pretty_N_go_step by (apply N.div_str_pos; lia).
  rewrite pretty_N_go_step by (rewrite N.Div0.div_div; apply N.div_str_pos; lia).
  rewrite pretty_N_go_small.
  2:{ rewrite !N.Div0.div_div.
      split; [apply N.div_str_pos; lia | apply N.Div0.div_lt_upper_bound; lia]. }
  rewrite !N.Div0.div_div.
  rewrite !Nat2N.inj_mod, !Nat2N.inj_div. done.
Qed.

Lemma digit_char (k : nat) :
  (k < 10)%nat → digit (pretty_N_char (N.of_nat k)) = Some k.
Proof. intros Hk. do 10 (destruct k as [|k]; [done|]). lia. Qed.

Lemma digit_lt (a : ascii) (k : nat) : digit a = Some k → (k < 10)%nat.
Proof. unfold digit. case_decide; [|done]. intros [= <-]. lia. Qed.

(** [%02d] writes two digits for a number below 100, [%04d] four digits for
    a number below 10000. *)
Lemma pad2_shape (n : nat) :
  (n < 100)%nat →
  pad2 n = String (pretty_N_char (N.of_nat (n / 10)))
             (String (pretty_N_char (N.of_nat (n `mod` 10))) "").
Proof.
  intros Hn. unfold pad2. case_decide as H10.
  - rewrite pretty_nat_1, Nat.div_small, Nat.mod_small by done. reflexivity.
  - apply pretty_nat_2. lia.
Qed.

Lemma pad4_shape (n : nat) :
  (n < 100 * 100)%nat →
  pad4 n = String (pretty_N_char (N.of_nat (n / 1000)))
             (String (pretty_N_char (N.of_nat ((n / 100) `mod` 10)))
                (String (pretty_N_char (N.of_nat ((n / 10) `mod` 10)))
                   (String (pretty_N_char (N.of_nat (n `mod` 10))) ""))).
Proof.
  intros Hn. unfold pad4. repeat case_decide.
  - rewrite pretty_nat_1 by done.
    rewrite !(Nat.div_small n), (Nat.mod_small n) by lia. reflexivity.
  - rewrite pretty_nat_2 by lia.
    rewrite !(Nat.div_small n 1000), !(Nat.div_small n 100) by lia.
    rewrite (Nat.mod_small (n / 10)); [reflexivity|].
    apply Nat.Div0.div_lt_upper_bound; lia.
  - rewrite pretty_nat_3 by lia.
    rewrite (Nat.div_small n 1000) by lia.
    rewrite (Nat.mod_small (n / 100)); [reflexivity|].
    apply Nat.Div0.div_lt_upper_bound; lia.
  - apply pretty_nat_4. lia.
Qed.

Lemma two_digits (n : nat) : (10 * (n / 10) + n `mod` 10 = n)%nat.
Proof. symmetry. apply Nat.div_mod_eq. Qed.

Lemma four_digits (n : nat) :
  (1000 * (n / 1000) + 100 * ((n / 100) `mod` 10) + 10 * ((n / 10) `mod` 10)
   + n `mod` 10 = n)%nat.
Proof.
  pose proof (two_digits n) as H1.
  pose proof (two_digits (n / 10)) as H2.
  pose proof (two_digits (n / 100)) as H3.
  rewrite Nat.Div0.div_div in H2, H3.
  change (10 * 10)%nat with 100%nat in H2.
  change (100 * 10)%nat with 1000%nat in H3.
  revert H1 H2 H3.
  generalize (n / 1000)%nat, ((n / 100) `mod` 10)%nat, (n / 100)%nat,
    ((n / 10) `mod` 10)%nat, (n / 10)%nat, (n `mod` 10)%nat.
  intros a b c d e f H1 H2 H3. lia.
Qed.

(** What [iso_date] reads in a date that [strftime] wrote. *)
Lemma iso_date_strftime (y m d : nat) :
  (y < 100 * 100)%nat → (m < 100)%nat → (d < 100)%nat →
  iso_date (strftime (Some {| year := y; month := m; day := d |}))
  = if decide (1 ≤ m ∧ m ≤ 12 ∧ 1 ≤ d ∧ d ≤ days_in_month y m)%nat
    then Some {| year := y; month := m; day := d |}
    else None.
Proof.
  intros Hy Hm Hd. unfold strftime. cbn [year month day].
  rewrite (pad4_shape y Hy), (pad2_shape m Hm), (pad2_shape d Hd).
  cbv beta iota delta [String.append]. unfold iso_date.
  rewrite !digit_char
    by (try apply Nat.mod_upper_bound; try apply Nat.Div0.div_lt_upper_bound; lia).
  cbn [mbind option_bind]. rewrite four_digits, !two_digits. done.
Qed.

(** [iso_date] only returns dates of the calendar, with a year of four
    digits. *)
Lemma iso_date_valid (v : value) (d : datetime) :
  iso_date v = Some d →
  (year d < 100 * 100 ∧ month d < 100 ∧ day d < 100)%nat
  ∧ (1 ≤ month d ∧ month d ≤ 12 ∧ 1 ≤ day d
     ∧ day d ≤ days_in_month (year d) (month d))%nat.
Proof.
  clear to_datetime re_compile_rest.
  destruct v as [|s|x]; try done.
  destruct s as [|c1 [|c2 [|c3 [|c4 [|c5 [|c6 [|c7 [|c8 [|c9 [|c10 [|c11 s]]]]]]]]]]];
    try discriminate; unfold iso_date; destruct_char c5; destruct_char c8.
  destruct (digit c1) as [y1|] eqn:H1; [|done].
  destruct (digit c2) as [y2|] eqn:H2; [|done].
  destruct (digit c3) as [y3|] eqn:H3; [|done].
  destruct (digit c4) as [y4|] eqn:H4; [|done].
  destruct (digit c6) as [m1|] eqn:H5; [|done].
  destruct (digit c7) as [m2|] eqn:H6; [|done].
  destruct (digit c9) as [d1|] eqn:H7; [|done].
  destruct (digit c10) as [d2|] eqn:H8; [|done].
  cbn [mbind option_bind].
  apply digit_lt in H1, H2, H3, H4, H5, H6, H7, H8.
  case_decide as Hvalid; [|done]. intros [= <-]. cbn [year month day].
  split; [lia | done].
Qed.

(** The texts [strftime] writes are read back by [iso_date] as the dates
    they were written from. *)
Lemma iso_date_round_trip (v : value) :
  iso_date (strftime (iso_date v)) = iso_date v.
Proof.
  clear to_datetime re_compile_rest.
  destruct (iso_date v) as [[y m d]|] eqn:Hv; [|done].
  apply iso_date_valid in Hv as [(Hy & Hm & Hd) Hvalid].
  cbn [year month day] in Hy, Hm, Hd, Hvalid.
  rewrite iso_date_strftime by done. by rewrite decide_True.
Qed.

Lemma read_row_Some (d : option datetime) (r : sql_row) (t : Transaction) :
  read_row d r = Some t →
  id t = sql_id r ∧ date t = d
  ∧ sql_description r = Text (description t)
  ∧ as_opt_str (sql_category r) = Some (category t)
  ∧ as_float (sql_amount r) = Some (amount t).
Proof.
  clear to_datetime re_compile_rest.
  unfold read_row. intros Ht.
  destruct (sql_description r) as [|s|x]; try done.
  destruct (as_opt_str (sql_category r)); [|done].
  destruct (as_float (sql_amount r)); [|done].
  simpl in Ht. by injection Ht as <-.
Qed.

(** X20. An uploaded row is read back as the transaction of the file.
    Take it that [pd.to_datetime] reads a column of texts that [strftime]
    has written from dates it returned as these dates, and that the date
    cells of the table are such texts.  Then, after an ingestion, they still
    are, and the transaction read back for a row of the upload has the
    description of the file and the date that the ingestion parsed for it;
    its category is the text of the file, or the label of [categorize] where
    the cell is missing; its amount is the number of the file, or is missing
    where the cell is. *)
Theorem ingested_rows_read_back (df : DataFrame) (st st' : db)
    (data' : list Transaction) :
  (∀ ds, Forall returned_date ds → to_datetime (strftime <$> ds) = ds) →
  dates_written st →
  add_transactions df st = Ok st' →
  get_transactions st' = Some data' →
  dates_written st'
  ∧ ∀ i r, rows df !! i = Some r →
      ∃ t', data' !! (length (transactions st) + i)%nat = Some t'
            ∧ source_cell "Description" df r = Text (description t')
            ∧ date t'
              = at_label (to_datetime (source_cell "Date" df <$> rows df)) i
            ∧ (∀ c, source_cell "Category" df r = Text c → category t' = Some c)
            ∧ (source_cell "Category" df r = NaN →
               category t' = Some (categorize (description t')))
            ∧ (∀ x, source_cell "Amount" df r = Number x → amount t' = Some x)
            ∧ (source_cell "Amount" df r = NaN → amount t' = None).
Proof.
  intros Hrt (ds & Hds & Hold) Hadd Hdata'.
  destruct (add_transactions_spec df st st' Hadd)
    as (_ & new & Hnew & Hlen & Hrows).
  set (parsed := to_datetime (source_cell "Date" df <$> rows df)) in *.
  assert (sql_date <$> new = strftime <$> (at_label parsed <$> seq 0 (length new)))
    as Hdates.
  { apply list_eq. intros k. rewrite !list_lookup_fmap.
    destruct (new !! k) as [row|] eqn:Hrow.
    - pose proof (lookup_lt_Some _ _ _ Hrow) as Hk.
      rewrite (lookup_seq_lt 0 (length new) k Hk). simpl.
      destruct (lookup_lt_is_Some_2 (rows df) k) as [r Hr]; [lia|].
      destruct (Hrows k r row Hr Hrow) as (_ & _ & _ & -> & _). done.
    - apply lookup_ge_None in Hrow. rewrite lookup_seq_ge by lia. done. }
  assert (Forall returned_date (ds ++ (at_label parsed <$> seq 0 (length new))))
    as Hall.
  { apply Forall_app. split; [done|]. apply Forall_fmap, Forall_forall.
    intros k _. by exists (source_cell "Date" df <$> rows df), k. }
  assert (sql_date <$> transactions st'
          = strftime <$> (ds ++ (at_label parsed <$> seq 0 (length new))))
    as Hnow.
  { by rewrite Hnew, !fmap_app, Hold, Hdates. }
  split; [by eexists|].
  intros i r Hr.
  assert (is_Some (new !! i)) as [row Hrow].
  { apply lookup_lt_is_Some. rewrite Hlen. by eapply lookup_lt_Some. }
  destruct (Hrows i r row Hr Hrow) as (s & Hs & Hdesc & Hdate & Hcat & Hamt).
  assert (transactions st' !! (length (transactions st) + i)%nat = Some row)
    as Hrow'.
  { rewrite Hnew, lookup_app_r by lia.
    by replace (length (transactions st) + i - length (transactions st))%nat
      with i by lia. }
  assert (is_Some (data' !! (length (transactions st) + i)%nat)) as [t' Ht'].
  { apply lookup_lt_is_Some. pose proof Hdata' as Hlen'.
    unfold get_transactions in Hlen'. apply length_mapM in Hlen'.
    rewrite length_imap in Hlen'. apply lookup_lt_Some in Hrow'. lia. }
  destruct (get_transactions_lookup st' data' _ t' Hdata' Ht')
    as (row' & Hrow'' & Hread).
  rewrite Hrow' in Hrow''. injection Hrow'' as <-.
  apply read_row_Some in Hread as (_ & Hd & Hdesc' & Hcat' & Hamt').
  rewrite Hdesc in Hdesc'. injection Hdesc' as ->.
  exists t'. split; [done|]. split; [done|]. split_and!.
  - rewrite Hd, Hnow, (Hrt _ Hall). unfold at_label.
    assert (length ds = length (transactions st)) as Hlds.
    { apply (f_equal length) in Hold. by rewrite !length_fmap in Hold. }
    rewrite lookup_app_r by lia.
    replace (length (transactions st) + i - length ds)%nat with i by lia.
    rewrite list_lookup_fmap, lookup_seq_lt by (by eapply lookup_lt_Some).
    done.
  - intros c Hc. rewrite Hcat, Hc in Hcat'. simpl in Hcat'. by injection Hcat'.
  - intros Hc. rewrite Hcat, Hc in Hcat'. simpl in Hcat'. by injection Hcat'.
  - intros x Hx. rewrite Hamt, Hx in Hamt'. simpl in Hamt'. by injection Hamt'.
  - intros Hx. rewrite Hamt, Hx in Hamt'. simpl in Hamt'. by injection Hamt'.
Qed.

(** ** The script as a whole *)

Lemma upload_files_grows (files : list DataFrame) (st st' : db) (o : option exn) :
  upload_files files st = (st', o) →
  removed_merchants st' = removed_merchants st
  ∧ ∃ new, transactions st' = transactions st ++ new
           ∧ (o = None → length new = sum_list (length ∘ rows <$> files)).
Proof.
  revert st. induction files as [|df files IH]; intros st; simpl.
  - intros [= <- <-]. split; [done|]. exists []. by rewrite app_nil_r.
  - destruct (add_transactions df st) as [st1|e] eqn:Hadd.
    + intros Hrest. destruct (IH st1 Hrest) as (Hrm' & new' & Hnew' & Ho).
      destruct (add_transactions_spec df st st1 Hadd)
        as (Hrm & new & Hnew & Hlen & _).
      split; [by rewrite Hrm'|]. exists (new ++ new'). split.
      * by rewrite Hnew', Hnew, app_assoc.
      * intros ->. rewrite length_app, Hlen, Ho by done. done.
    + intros [= <- <-]. split; [done|]. exists []. by rewrite app_nil_r.
Qed.

(** The ways a run can end, with what it leaves. *)
Lemma script_inv (w : widgets) (st : db) (file : option csv_file) (res : run) :
  script w st file = Some res →
  ∃ st1 o,
    upload_files (uploaded_files w) st = (st1, o)
    ∧ ((∃ e, o = Some e
             ∧ res = {| store_after := st1; file_after := file;
                        how := Stopped e |})
       ∨ (o = None
          ∧ ∃ data,
              get_transactions st1 = Some data
              ∧ ((∃ e, res = {| store_after := st1; file_after := file;
                                how := Stopped e |})
                 ∨ (search_text w ≠ "" ∧ remove_pressed w = true
                    ∧ res = {| store_after := remove_merchant (search_text w) st1;
                               file_after := file; how := Rerun |})
                 ∨ (get_removed_merchants st1 ≠ [] ∧ reinstate_pressed w = true
                    ∧ res = {| store_after := reinstate_merchants st1;
                               file_after := file; how := Rerun |})
                 ∨ res = {| store_after := st1;
                            file_after :=
                              export_block (export_pressed w)
                                (filtered_data data (get_removed_merchants st1))
                                file;
                            how := Finished |}))).
Proof.
  unfold script.
  destruct (upload_files (uploaded_files w) st) as [st1 [e|]] eqn:Hup.
  { intros [= <-]. exists st1, (Some e). split; [done|]. left. by exists e. }
  destruct (get_transactions st1) as [data|] eqn:Hdata; [|done].
  simpl. intros [= <-]. exists st1, None. split; [done|]. right.
  split; [done|]. exists data. split; [done|].
  assert (∀ res,
            res = removed_and_export_blocks w st1 (get_removed_merchants st1)
                    (filtered_data data (get_removed_merchants st1)) file →
            (get_removed_merchants st1 ≠ [] ∧ reinstate_pressed w = true
             ∧ res = {| store_after := reinstate_merchants st1;
                        file_after := file; how := Rerun |})
            ∨ res = {| store_after := st1;
                       file_after :=
                         export_block (export_pressed w)
                           (filtered_data data (get_removed_merchants st1)) file;
                       how := Finished |}) as Hrest.
  { intros res ->. unfold removed_and_export_blocks.
    destruct (bool_decide (get_removed_merchants st1 ≠ [])) eqn:Hne;
      [|by right].
    destruct (reinstate_pressed w) eqn:Hpressed; [|by right].
    left. by apply bool_decide_eq_true in Hne. }
  unfold search_block.
  destruct (decide (search_text w = "")) as [Hempty|Hsearch].
  { right. right. by apply Hrest. }
  destruct (merchant_search data (search_text w)) as [r|e].
  - destruct (remove_pressed w) eqn:Hpressed.
    + right. by left.
    + right. right. by apply Hrest.
  - left. by exists e.
Qed.

(** X21. No run of the script deletes or changes a stored transaction: the
    table after a run is the table before it followed by what the run
    ingested.  With no file in the uploader the table is unchanged; a run
    that does not end at an exception has ingested every row of every file
    in the uploader. *)
Theorem script_keeps_stored_transactions (w : widgets) (st : db)
    (file : option csv_file) (res : run) :
  script w st file = Some res →
  (∃ new, transactions (store_after res) = transactions st ++ new)
  ∧ (uploaded_files w = [] → transactions (store_after res) = transactions st)
  ∧ (how res = Finished ∨ how res = Rerun →
     length (transactions (store_after res))
     = (length (transactions st)
        + sum_list (length ∘ rows <$> uploaded_files w))%nat).
Proof.
  intros Hrun.
  destruct (script_inv w st file res Hrun) as (st1 & o & Hup & Hcases).
  destruct (upload_files_grows _ _ _ _ Hup) as (_ & new & Hnew & Hlen).
  assert (transactions (store_after res) = transactions st1) as Hsame.
  { destruct Hcases as [(e & _ & ->)
      | (_ & data & _ & [(e & ->) | [(_ & _ & ->) | [(_ & _ & ->) | ->]]])];
      done. }
  rewrite Hsame. split_and!.
  - by exists new.
  - intros Hnone. rewrite Hnone in Hup. simpl in Hup. by injection Hup as <- _.
  - intros Hend. rewrite Hnew, length_app. f_equal. apply Hlen.
    destruct Hcases as [(e & _ & ->) | (-> & _)]; [|done].
    by destruct Hend.
Qed.

(** X22. What a run does to the excluded merchants.  A run that does not
    end at a rerun leaves them as they were.  A run that ends at a rerun has
    either added the search text, which is then not empty, or emptied a list
    that was not empty.  So no run excludes the empty text. *)
Theorem script_excluded_merchants (w : widgets) (st : db)
    (file : option csv_file) (res : run) :
  script w st file = Some res →
  (how res ≠ Rerun →
   removed_merchants (store_after res) = removed_merchants st)
  ∧ (how res = Rerun →
     (search_text w ≠ "" ∧ remove_pressed w = true
      ∧ removed_merchants (store_after res)
        = {[search_text w]} ∪ removed_merchants st)
     ∨ (reinstate_pressed w = true ∧ removed_merchants st ≠ ∅
        ∧ removed_merchants (store_after res) = ∅))
  ∧ ("" ∉ removed_merchants st → "" ∉ removed_merchants (store_after res)).
Proof.
  intros Hrun.
  destruct (script_inv w st file res Hrun) as (st1 & o & Hup & Hcases).
  destruct (upload_files_grows _ _ _ _ Hup) as (Hrm & _).
  destruct Hcases as [(e & _ & ->)
    | (_ & data & _ & [(e & ->) | [(Hs & Hp & ->) | [(Hne & Hp & ->) | ->]]])];
    simpl; rewrite ?Hrm.
  - split_and!; done.
  - split_and!; done.
  - split_and!; [done | by left |].
    intros Hnot. rewrite not_elem_of_union, not_elem_of_singleton. by split.
  - split_and!; [done | | intros _; apply not_elem_of_empty].
    intros _. right. split_and!; [done | | done].
    intros Hempty. apply Hne. unfold get_removed_merchants.
    rewrite Hrm, Hempty. apply elements_empty.
  - split_and!; done.
Qed.

(** X23. The exported file is written only by a run that reaches the last
    block with the export button pressed: a run that ends at a rerun or at
    an exception, or in which the button is not pressed, leaves the file as
    it was; otherwise the file is the export of the filtered frame of the
    store the run leaves. *)
Theorem script_export (w : widgets) (st : db) (file : option csv_file)
    (res : run) :
  script w st file = Some res →
  (how res ≠ Finished → file_after res = file)
  ∧ (export_pressed w = false → file_after res = file)
  ∧ (how res = Finished → export_pressed w = true →
     ∃ filtered, filtered_view (store_after res) = Some filtered
                 ∧ file_after res = Some (to_csv filtered)).
Proof.
  intros Hrun.
  destruct (script_inv w st file res Hrun) as (st1 & o & Hup & Hcases).
  destruct Hcases as [(e & _ & ->)
    | (_ & data & Hdata & [(e & ->) | [(_ & _ & ->) | [(_ & _ & ->) | ->]]])];
    simpl; try (split_and!; done).
  split_and!.
  - done.
  - by intros ->.
  - intros _ ->. eexists. unfold filtered_view. rewrite Hdata. done.
Qed.

(** X24. A run ingests the files that are in the uploader, whatever else it
    does: when two runs in a row find the same files there, as the run after
    a rerun does, and neither ends at an exception, every row of the files
    is in the table twice. *)
Theorem rerun_ingests_the_files_again (w w' : widgets) (st : db)
    (file file' : option csv_file) (res res' : run) :
  script w st file = Some res →
  script w' (store_after res) file' = Some res' →
  uploaded_files w' = uploaded_files w →
  how res = Finished ∨ how res = Rerun →
  how res' = Finished ∨ how res' = Rerun →
  length (transactions (store_after res'))
  = (length (transactions st)
     + 2 * sum_list (length ∘ rows <$> uploaded_files w))%nat.
Proof.
  intros Hrun Hrun' Hfiles Hend Hend'.
  assert (∀ w st file res,
            script w st file = Some res →
            how res = Finished ∨ how res = Rerun →
            length (transactions (store_after res))
            = (length (transactions st)
               + sum_list (length ∘ rows <$> uploaded_files w))%nat) as Hgrow.
  { clear. intros w st file res Hrun Hend.
    destruct (script_inv w st file res Hrun) as (st1 & o & Hup & Hcases).
    destruct (upload_files_grows _ _ _ _ Hup) as (_ & new & Hnew & Hlen).
    destruct Hcases as [(e & _ & ->)
      | (-> & data & _ & [(e & ->) | [(_ & _ & ->) | [(_ & _ & ->) | ->]]])];
      simpl in *; try (by destruct Hend);
      by rewrite Hnew, length_app, Hlen. }
  rewrite (Hgrow _ _ _ _ Hrun' Hend'), (Hgrow _ _ _ _ Hrun Hend), Hfiles. lia.
Qed.

End App.

(** * The properties on the sample inputs *)

Local Open Scope Qc_scope.

Lemma categorize_first_match_or_other_witness :
  categorize "uber to TARGET" = "Transportation" ∧ categorize "Rent" = "Other".
Proof.
  split.
  - apply (proj1 (categorize_first_match_or_other "uber to TARGET")
             2%nat "Uber" "Transportation").
    + reflexivity.
    + apply contains_spec. reflexivity.
    + intros j kw c Hj Hlk. apply contains_false_spec.
      destruct j as [|[|j]]; [| |lia]; simpl in Hlk; injection Hlk as <- <-;
        reflexivity.
  - apply (proj2 (categorize_first_match_or_other "Rent")).
    intros kw c Hin. apply contains_false_spec.
    unfold CATEGORY_RULES in Hin.
    repeat (apply elem_of_cons in Hin as [[= -> ->]|Hin]; [reflexivity|]).
    by apply elem_of_nil in Hin.
Defined.

(** The example row of the specification: the blank category cell is
    filled with "Coffee" and the date is stored as written. *)
Lemma ingest_example_row :
  add_transactions to_datetime_iso Sample.upload Sample.empty_db
  = Ok Sample.after_upload.
Proof. reflexivity. Qed.

(** C2, at the failing input: the same row uploaded in a file that has no
    column Category is stored with the blank text as its category, although
    [categorize] gives its description the label "Coffee". *)
Theorem missing_category_column_is_not_categorized :
  add_transactions to_datetime_iso Sample.upload_without_category Sample.empty_db
  = Ok Sample.after_upload_without_category
  ∧ sql_category <$> transactions Sample.after_upload_without_category = [Text ""]
  ∧ categorize "Starbucks Downtown" = "Coffee".
Proof. split_and!; reflexivity. Qed.

(** C4, as stated, fails in two ways.  A matched transaction without a
    date is part of the total but of no month, so the average is not the
    total divided by the number of months.  And the search text is compiled
    as a regular expression: ["amazon.com"] also selects a description in
    which that text does not occur, its [.] standing for the space. *)
Lemma merchant_search_counterexample :
  (∃ r : merchant_report,
     merchant_search Sample.re_rest Sample.data_with_undated "Starbucks" = Ok r
     ∧ merchant_data r = Sample.data_with_undated
     ∧ avg_merchant r = Some Sample.amount_4_50
     ∧ avg_merchant r ≠ Some (claimed_avg_per_month (merchant_data r)))
  ∧ (∃ r : merchant_report,
       merchant_search Sample.re_rest Sample.data_amazon "amazon.com" = Ok r
       ∧ merchant_data r = Sample.data_amazon
       ∧ ¬ Forall (λ t, Str.occurs_in_ci "amazon.com" (description t))
                  (merchant_data r)).
Proof.
  split.
  - eexists. split_and!; [reflexivity | reflexivity | reflexivity |].
    intros H. apply (f_equal (fmap this)) in H. vm_compute in H. discriminate.
  - eexists. split_and!; [reflexivity | reflexivity |].
    simpl. intros H. apply Forall_cons in H as [_ H]. apply Forall_cons in H as [H _].
    revert H. apply contains_false_spec. reflexivity.
Qed.

Lemma merchant_search_plain_text_witness :
  ∃ r : merchant_report,
    search_view to_datetime_iso Sample.re_rest Sample.store "Starbucks"
    = Some (Some (Ok r))
    ∧ total_merchant r = Q2Qc 10
    ∧ avg_merchant r = Some (Q2Qc 5).
Proof.
  destruct (merchant_search_plain_text to_datetime_iso Sample.re_rest
              Sample.store Sample.data "Starbucks")
    as (r & _ & Hview & Hdata & _ & Htotal & _ & _ & Havg).
  - reflexivity.
  - discriminate.
  - reflexivity.
  - exists r. rewrite Htotal, Havg, Hdata. split_and!; [done | ..].
    + apply Qc_is_canon. reflexivity.
    + f_equal. apply Qc_is_canon. reflexivity.
Defined.

(** The example of C6: Costco has the largest sum and heads the top
    merchants; once it is excluded it has no row. *)
Lemma top_merchants_costco_example :
  (top_merchants (filtered_data Sample.data [])).*1
  = ["Costco"; "STARBUCKS #12"; "Starbucks Downtown"]
  ∧ (top_merchants (filtered_data Sample.data ["Costco"])).*1
    = ["STARBUCKS #12"; "Starbucks Downtown"].
Proof. split; reflexivity. Qed.

(** C5, as stated, fails on a transaction without a date. *)
Lemma monthly_summary_counterexample :
  Qc_sum (monthly_summary (filtered_data Sample.data_with_undated [])).*2
  ≠ series_sum (amount <$> filtered_data Sample.data_with_undated []).
Proof.
  intros H. apply (f_equal this) in H. vm_compute in H. discriminate.
Qed.

(** The frame read back grows by the upload also where its column
    [amount] holds texts. *)
Lemma ingestion_appends_batch_witness :
  length (read_sql to_datetime_iso Sample.after_upload_without_amount)
  = (length (read_sql to_datetime_iso Sample.empty_db)
     + length (rows Sample.upload_without_amount))%nat.
Proof.
  apply (ingestion_appends_batch to_datetime_iso Sample.upload_without_amount
           Sample.empty_db Sample.after_upload_without_amount).
  reflexivity.
Defined.

(** C8, as stated, fails: the file has not the four columns of the input
    format, whatever the case of their labels. *)
Lemma export_header_counterexample :
  Str.lower <$> header (to_csv (filtered_data Sample.data []))
  ≠ Str.lower <$> expected_cols.
Proof. discriminate. Qed.

Lemma merchant_search_no_match_witness :
  merchant_search Sample.re_rest Sample.data "zzz"
  = Ok {| merchant_data := []; total_merchant := 0; avg_merchant := None |}.
Proof.
  apply (proj1 (merchant_search_no_match Sample.re_rest Sample.data "zzz")).
  - reflexivity.
  - repeat (apply Forall_cons; split;
              [apply contains_false_spec; reflexivity|]).
    apply Forall_nil_2.
Defined.

(** C9, as stated, fails: the texts ["("] and ["Cos.co"] occur in no
    description of the sample frame; the search for the first raises
    [re.error], and the search for the second, whose [.] stands for the [t]
    of "Costco", reports the total 100. *)
Lemma merchant_search_no_match_counterexample :
  Forall (λ t, ¬ Str.occurs_in_ci "(" (description t)) Sample.data
  ∧ (∀ rest, merchant_search rest Sample.data "(" = Raise ReError)
  ∧ Forall (λ t, ¬ Str.occurs_in_ci "Cos.co" (description t)) Sample.data
  ∧ ∃ r : merchant_report,
      merchant_search Sample.re_rest Sample.data "Cos.co" = Ok r
      ∧ total_merchant r = Q2Qc 100
      ∧ total_merchant r ≠ 0.
Proof.
  split_and!.
  - repeat (apply Forall_cons; split;
              [apply contains_false_spec; reflexivity|]).
    apply Forall_nil_2.
  - reflexivity.
  - repeat (apply Forall_cons; split;
              [apply contains_false_spec; reflexivity|]).
    apply Forall_nil_2.
  - eexists. split_and!; [reflexivity | |].
    + apply Qc_is_canon. reflexivity.
    + intros H. apply (f_equal this) in H. vm_compute in H. discriminate.
Qed.


(** ** The further properties on the sample inputs *)

Lemma categorize_ignores_case_witness :
  categorize "STARBUCKS #12" = categorize "starbucks #12"
  ∧ categorize (Str.lower "STARBUCKS #12") = categorize "STARBUCKS #12".
Proof.
  apply (categorize_ignores_case "STARBUCKS #12" "starbucks #12").
  reflexivity.
Defined.

Lemma categorize_survives_context_witness :
  categorize ("Trip with " +:+ "Uber" +:+ " to the airport") ≠ "Other".
Proof.
  apply (categorize_survives_context "Uber" "Trip with " " to the airport").
  discriminate.
Defined.

Lemma blank_description_rejects_the_file_witness :
  (∀ st', add_transactions to_datetime_iso Sample.upload_blank_description
            Sample.after_upload ≠ Ok st')
  ∧ ∃ e, upload_files to_datetime_iso
           [Sample.upload_blank_description; Sample.upload] Sample.after_upload
         = (Sample.after_upload, Some e).
Proof.
  apply (blank_description_rejects_the_file to_datetime_iso
           Sample.upload_blank_description [Sample.upload] Sample.after_upload).
  apply Exists_cons_hd. intros s. discriminate.
Defined.

Lemma ingestion_writes_complete_rows_witness :
  get_removed_merchants Sample.after_upload
  = get_removed_merchants Sample.empty_db
  ∧ ∀ i r, rows Sample.upload !! i = Some r →
      ∃ (row : sql_row) (s : string),
        transactions Sample.after_upload
          !! (length (transactions Sample.empty_db) + i)%nat = Some row
        ∧ source_cell "Description" Sample.upload r = Text s
        ∧ sql_description row = Text s
        ∧ sql_category row ≠ NaN
        ∧ ((∀ a, source_cell "Amount" Sample.upload r ≠ Text a) →
           sql_amount row = source_cell "Amount" Sample.upload r).
Proof.
  apply (ingestion_writes_complete_rows to_datetime_iso Sample.upload
           Sample.empty_db Sample.after_upload).
  reflexivity.
Defined.

Lemma ingestion_assigns_fresh_ids_witness :
  (∀ row, row ∈ transactions Sample.after_upload →
     (sql_id row < next_id (transactions Sample.after_upload))%Z)
  ∧ (∀ j row,
       transactions Sample.after_second_upload
         !! (length (transactions Sample.after_upload) + j)%nat = Some row →
       sql_id row = (next_id (transactions Sample.after_upload) + Z.of_nat j)%Z)
  ∧ (NoDup (sql_id <$> transactions Sample.after_upload) →
     NoDup (sql_id <$> transactions Sample.after_second_upload)).
Proof.
  apply (ingestion_assigns_fresh_ids to_datetime_iso Sample.upload
           Sample.after_upload Sample.after_second_upload).
  - reflexivity.
  - discriminate.
Defined.

Lemma add_transactions_no_rows_witness :
  add_transactions to_datetime_iso Sample.header_only Sample.store
  = Ok Sample.store.
Proof.
  apply (add_transactions_no_rows to_datetime_iso Sample.header_only
           Sample.store).
  reflexivity.
Defined.


Lemma upload_files_spec_witness :
  ∃ before bad after,
    [Sample.upload; Sample.upload_blank_description; Sample.upload]
    = before ++ bad :: after
    ∧ upload_files to_datetime_iso before Sample.empty_db
      = (Sample.after_upload, None)
    ∧ add_transactions to_datetime_iso bad Sample.after_upload
      = Raise AttributeError.
Proof.
  apply (upload_files_spec to_datetime_iso
           [Sample.upload; Sample.upload_blank_description; Sample.upload]
           Sample.empty_db Sample.after_upload (Some AttributeError)).
  reflexivity.
Defined.

Lemma excluding_absent_merchant_changes_nothing_witness :
  filtered_data Sample.data
    (get_removed_merchants (remove_merchant "Starbucks" Sample.store))
  = filtered_data Sample.data (get_removed_merchants Sample.store).
Proof.
  apply (excluding_absent_merchant_changes_nothing Sample.data "Starbucks"
           Sample.store).
  repeat (apply Forall_cons; split; [discriminate|]). apply Forall_nil_2.
Defined.

Lemma top_merchants_of_few_merchants_witness :
  length (top_merchants Sample.data)
  = length (remove_dups (description <$> Sample.data))
  ∧ concat ((λ m, filter (λ t, description t = m) Sample.data)
              <$> (top_merchants Sample.data).*1)
    ≡ₚ Sample.data.
Proof.
  apply (top_merchants_of_few_merchants Sample.data).
  vm_compute. lia.
Defined.

Lemma merchant_search_ignores_case_of_text_witness :
  merchant_search Sample.re_rest Sample.data "STARBUCKS"
  = merchant_search Sample.re_rest Sample.data "starbucks".
Proof.
  apply (merchant_search_ignores_case_of_text Sample.re_rest Sample.data
           "STARBUCKS" "starbucks"); reflexivity.
Defined.

Lemma earlier_rows_read_back_unchanged_witness :
  ∃ t', Sample.frame_after_second_upload !! 0%nat = Some t'
        ∧ id t' = id Sample.starbucks_downtown
        ∧ description t' = description Sample.starbucks_downtown
        ∧ category t' = category Sample.starbucks_downtown
        ∧ amount t' = amount Sample.starbucks_downtown.
Proof.
  apply (earlier_rows_read_back_unchanged to_datetime_iso Sample.upload
           Sample.after_upload Sample.after_second_upload
           Sample.frame_after_upload Sample.frame_after_second_upload);
    reflexivity.
Defined.

Lemma categorized_transactions_are_found_witness :
  ∃ (kw : string) (r : merchant_report),
    (kw, categorize (description Sample.starbucks_downtown)) ∈ CATEGORY_RULES
    ∧ merchant_search Sample.re_rest Sample.data kw = Ok r
    ∧ Sample.starbucks_downtown ∈ merchant_data r.
Proof.
  apply (categorized_transactions_are_found Sample.re_rest Sample.data
           Sample.starbucks_downtown).
  - apply list_elem_of_here.
  - discriminate.
Defined.

(** [to_datetime_iso] reads the texts that [strftime] has written from
    dates it returned as these dates. *)
Lemma to_datetime_iso_strftime (ds : list (option datetime)) :
  Forall (returned_date to_datetime_iso) ds →
  to_datetime_iso (strftime <$> ds) = ds.
Proof.
  unfold to_datetime_iso. induction 1 as [|d ds Hd _ IH]; [done|].
  rewrite !fmap_cons, IH. f_equal.
  destruct Hd as (column & i & <-). unfold at_label.
  rewrite list_lookup_fmap. destruct (column !! i) as [v|]; [|done].
  apply iso_date_round_trip.
Qed.

Lemma ingested_rows_read_back_witness :
  ∃ t', Sample.frame_after_upload !! 0%nat = Some t'
        ∧ description t' = "Starbucks Downtown"
        ∧ date t' = Some {| year := 2024; month := 3; day := 5 |}
        ∧ category t' = Some "Coffee"
        ∧ amount t' = Some Sample.amount_4_50.
Proof.
  destruct (ingested_rows_read_back to_datetime_iso Sample.upload
              Sample.empty_db Sample.after_upload Sample.frame_after_upload
              to_datetime_iso_strftime
              (ex_intro _ [] (conj (Forall_nil_2 _) eq_refl))
              eq_refl eq_refl) as [_ Hrows].
  destruct (Hrows 0%nat _ eq_refl)
    as (t' & Ht' & Hdesc & Hdate & _ & Hcat & Hamt & _).
  exists t'. split; [exact Ht'|].
  change (Text "Starbucks Downtown" = Text (description t')) in Hdesc.
  injection Hdesc as Hdesc. split; [done|]. split; [exact Hdate|]. split.
  - rewrite (Hcat eq_refl), <- Hdesc. reflexivity.
  - apply Hamt. reflexivity.
Defined.

Lemma script_keeps_stored_transactions_witness :
  length (transactions (remove_merchant "Starbucks" Sample.after_upload))
  = (length (transactions Sample.empty_db)
     + sum_list (length ∘ rows <$> uploaded_files Sample.remove_starbucks))%nat.
Proof.
  apply (script_keeps_stored_transactions to_datetime_iso Sample.re_rest
           Sample.remove_starbucks Sample.empty_db None
           {| store_after := remove_merchant "Starbucks" Sample.after_upload;
              file_after := None; how := Rerun |}).
  - reflexivity.
  - by right.
Defined.

Lemma script_excluded_merchants_witness :
  "" ∉ removed_merchants (remove_merchant "Starbucks" Sample.after_upload).
Proof.
  apply (script_excluded_merchants to_datetime_iso Sample.re_rest
           Sample.remove_starbucks Sample.empty_db None
           {| store_after := remove_merchant "Starbucks" Sample.after_upload;
              file_after := None; how := Rerun |}).
  - reflexivity.
  - apply not_elem_of_empty.
Defined.

Lemma script_export_witness :
  ∃ filtered, filtered_view to_datetime_iso Sample.store = Some filtered
              ∧ Some (to_csv Sample.data) = Some (to_csv filtered).
Proof.
  apply (script_export to_datetime_iso Sample.re_rest Sample.export_only
           Sample.store None
           {| store_after := Sample.store;
              file_after := Some (to_csv Sample.data); how := Finished |});
    reflexivity.
Defined.

Lemma rerun_ingests_the_files_again_witness :
  length (transactions (remove_merchant "Starbucks" Sample.after_second_upload))
  = (length (transactions Sample.empty_db)
     + 2 * sum_list (length ∘ rows <$> uploaded_files Sample.remove_starbucks))%nat.
Proof.
  apply (rerun_ingests_the_files_again to_datetime_iso Sample.re_rest
           Sample.remove_starbucks Sample.upload_only Sample.empty_db None None
           {| store_after := remove_merchant "Starbucks" Sample.after_upload;
              file_after := None; how := Rerun |}
           {| store_after :=
                remove_merchant "Starbucks" Sample.after_second_upload;
              file_after := None; how := Finished |}).
  - reflexivity.
  - reflexivity.
  - reflexivity.
  - by right.
  - by left.
Defined.
